(** * Customer support agent: retrieval engine and message router

    A shallow embedding of [rag_engine_simple.py], [websocket_server.py] and
    the parts of [config.py] and [audio_handler.py] they rely on, together
    with the properties of the search, chunking, query, session registry and
    message routing code.

    Conventions.
    - A Python [str] is a list of Unicode code points ([list N]); [len] is
      [length] and slicing is [take]/[drop].
    - A Python [int] is a [Z]; list and dict sizes are [nat].
    - A Python [dict] keyed by strings is a [gmap] when it is used as a map
      (the session tables) and a JSON object (association list) when it is a
      message exchanged with the client.
    - A Python exception is a value of [exn]; code that can raise runs in the
      monad [M], which threads the registry and the trace of calls made to
      the external collaborators. *)

From Stdlib Require Import ZArith QArith List Ascii String Sorted Lia.
From stdpp Require Import base option list gmap sorting.

Set Default Proof Using "Type".
Local Open Scope Z_scope.
Local Open Scope nat_scope.

(** ** Python built-ins used by the program *)

Module Py.

Abbreviation str := (list N).

(** An ASCII literal as a Python string. *)
Definition of_string (s : string) : str :=
  map N_of_ascii (list_ascii_of_string s).
Global Arguments of_string : simpl never.

(** [str.isspace] on one code point (CPython's table of whitespace). *)
Definition is_space (c : N) : bool :=
  ((9 <=? c) && (c <=? 13) || (28 <=? c) && (c <=? 32)
   || (c =? 133) || (c =? 160) || (c =? 5760)
   || (8192 <=? c) && (c <=? 8202)
   || (c =? 8232) || (c =? 8233) || (c =? 8239) || (c =? 8287)
   || (c =? 12288))%N.

Definition newline : N := 10%N.

Fixpoint lstrip (s : str) : str :=
  match s with
  | c :: s' => if is_space c then lstrip s' else s
  | [] => []
  end.

Definition rstrip (s : str) : str := rev (lstrip (rev s)).

(** [s.strip()] *)
Definition strip (s : str) : str := rstrip (lstrip s).

(** [s.split()]: maximal runs of non-whitespace; [cur] holds the current
    word, reversed. *)
Fixpoint split_from (cur : str) (s : str) : list str :=
  match s with
  | [] => match cur with [] => [] | _ => [rev cur] end
  | c :: s' =>
      if is_space c
      then match cur with
           | [] => split_from [] s'
           | _ => rev cur :: split_from [] s'
           end
      else split_from (c :: cur) s'
  end.

Definition split (s : str) : list str := split_from [] s.

Fixpoint startswith (s p : str) {struct p} : bool :=
  match p, s with
  | [], _ => true
  | _ :: _, [] => false
  | a :: p', b :: s' => (a =? b)%N && startswith s' p'
  end.

(** [needle in hay] on strings: substring containment. *)
Fixpoint contains (needle hay : str) : bool :=
  startswith hay needle
  || match hay with
     | [] => false
     | _ :: hay' => contains needle hay'
     end.

(** [l[:k]] for an integer [k]: a negative bound counts from the end. *)
Definition slice_to {A} (k : Z) (l : list A) : list A :=
  if (0 <=? k)%Z then take (Z.to_nat k) l
  else take (Z.to_nat (Z.of_nat (length l) + k)) l.

(** [set(l)], as the list of the distinct elements of [l]. *)
Definition set (l : list str) : list str := remove_dups l.

(** [sep.join(l)] *)
Fixpoint join (sep : str) (l : list str) : str :=
  match l with
  | [] => []
  | [s] => s
  | s :: l' => s ++ sep ++ join sep l'
  end.

(** [l.sort(reverse=True, key=key)]: the sort is stable, also under
    [reverse=True], so an element goes in front of the later elements
    whose key is not larger. *)
Fixpoint insert_desc {A} (key : A → nat) (x : A) (l : list A) : list A :=
  match l with
  | [] => [x]
  | y :: l' => if key x <? key y then y :: insert_desc key x l' else x :: l
  end.

Definition sort_desc {A} (key : A → nat) (l : list A) : list A :=
  foldr (insert_desc key) [] l.

(** [re.split(r'\n\n+', s)]: the separators are the maximal runs of two
    or more newlines. [insep] tells that the scan is inside a separator
    (then [cur] is empty); [cur] holds the current piece, reversed. *)
Fixpoint re_split_from (insep : bool) (cur : str) (s : str) : list str :=
  match s with
  | [] => [rev cur]
  | c :: s' =>
      if (c =? newline)%N
      then if insep then re_split_from true cur s'
           else match s' with
                | c' :: _ =>
                    if (c' =? newline)%N
                    then rev cur :: re_split_from true [] s'
                    else re_split_from false (c :: cur) s'
                | [] => re_split_from false (c :: cur) s'
                end
      else re_split_from false (c :: cur) s'
  end.

Definition re_split_blank_lines (s : str) : list str :=
  re_split_from false [] s.

(** [str.lower] restricted to ASCII letters; it is the instance used to
    run the program on ASCII text. *)
Definition ascii_lower (s : str) : str :=
  map (λ c, if ((65 <=? c) && (c <=? 90))%N then (c + 32)%N else c) s.

End Py.

Import Py.

(** ** rag_engine_simple.py: the knowledge store *)

(** An entry of [self.chunks]: the dict with keys ['content'], ['source']
    and ['path']. *)
Record chunk := Chunk {
  content : str;
  source : str;
  path : str
}.

Section KnowledgeStore.

(** [str.lower]: the Unicode case mapping is a built-in of the language,
    taken as given. *)
Variable lower : str → str.

(** The generator expression of the scoring loop:
    [sum(1 for word in query_words if word in content_lower)]. *)
Definition score (query_words : list str) (content_lower : str) : nat :=
  length (List.filter (λ word, contains word content_lower) query_words).

Definition query_words_of (query : str) : list str :=
  set (split (lower query)).

(** The score the loop computes for one chunk. *)
Definition chunk_score (query : str) (c : chunk) : nat :=
  score (query_words_of query) (lower (content c)).

(** The scoring loop: the list of [(score, chunk)] with [score > 0]. *)
Definition scored_chunks (query : str) (chunks : list chunk)
  : list (nat * chunk) :=
  omap (λ c, let s := chunk_score query c in
             if 0 <? s then Some (s, c) else None) chunks.

Definition _simple_search (chunks : list chunk) (query : str) (top_k : Z)
  : list chunk :=
  map snd (slice_to top_k (sort_desc fst (scored_chunks query chunks))).

End KnowledgeStore.

(** ** rag_engine_simple.py: chunking *)

Section Chunking.

(** One iteration of the loop over [paragraphs]; the loop state is
    [(chunks, current_chunk)]. *)
Definition split_text_step (chunk_size : Z) (st : list str * str) (para : str)
  : list str * str :=
  let '(chunks, current_chunk) := st in
  let para := strip para in
  match para with
  | [] => st
  | _ :: _ =>
      if (Z.of_nat (length current_chunk) + Z.of_nat (length para) <? chunk_size)%Z
      then (chunks, current_chunk ++ para ++ [newline; newline])
      else (match current_chunk with
            | [] => chunks
            | _ :: _ => chunks ++ [strip current_chunk]
            end,
            para ++ [newline; newline])
  end.

(** The chunks before the final [chunks if chunks else [text]]. *)
Definition split_text_chunks (text : str) (chunk_size : Z) : list str :=
  let paragraphs := re_split_blank_lines text in
  let '(chunks, current_chunk) :=
    foldl (split_text_step chunk_size) ([], []) paragraphs in
  match current_chunk with
  | [] => chunks
  | _ :: _ => chunks ++ [strip current_chunk]
  end.

(** [overlap] is accepted and never read, as in the source. *)
Definition _split_text (text : str) (chunk_size : Z) (overlap : Z) : list str :=
  match split_text_chunks text chunk_size with
  | [] => [text]
  | chunks => chunks
  end.

End Chunking.

(** ** Values exchanged with the client and the collaborators *)

#[local] Unset Elimination Schemes.
(** What [json.loads] returns and [json.dumps] accepts. *)
Inductive json :=
| JNull
| JBool (b : bool)
| JNum (q : Q)
| JStr (s : str)
| JArr (items : list json)
| JObj (fields : list (str * json)).
#[local] Set Elimination Schemes.

(** A Python dict with string keys, as its items in insertion order. *)
Abbreviation dict := (list (str * json)).

(** [d.get(key)]: the value of the last item with this key, [None] when
    there is none (the caller supplies the default). *)
Fixpoint dict_get (d : dict) (key : str) : option json :=
  match d with
  | [] => None
  | (k, v) :: d' =>
      match dict_get d' key with
      | Some v' => Some v'
      | None => if decide (k = key) then Some v else None
      end
  end.

(** Truth value of a Python object ([if not x]). *)
Definition truthy (v : json) : bool :=
  match v with
  | JNull => false
  | JBool b => b
  | JNum q => negb (Qeq_bool q 0)
  | JStr s => match s with [] => false | _ => true end
  | JArr l => match l with [] => false | _ => true end
  | JObj d => match d with [] => false | _ => true end
  end.

(** [v == s] for a string [s]. *)
Definition eq_str (v : json) (s : str) : bool :=
  match v with
  | JStr s' => bool_decide (s' = s)
  | _ => false
  end.

(** The exceptions the program can meet; all derive from [Exception]. *)
Inductive exn :=
| AttributeError
| KeyError
| TypeError
| ValueError
| JSONDecodeError
| RecursionError
| ConnectionClosed
| OSError
| RuntimeError (what : str).

Abbreviation handle := nat (only parsing).
Abbreviation bytes := (list Byte.byte).

(** [Document] of rag_engine_simple.py. *)
Record Document := {
  page_content : str;
  metadata : dict
}.

(** The keyword arguments of [ollama.generate]. *)
Record generate_request := {
  req_model : str;
  req_prompt : str;
  req_options : dict
}.

(** ** config.py *)

Record Config := {
  llm_model_name : str;
  llm_temperature : Q;
  llm_max_tokens : Z;
  rag_chunk_size : Z;
  rag_chunk_overlap : Z;
  rag_top_k_results : Z;
  languages : list str
}.

(** The values of the dataclass defaults. *)
Definition default_config : Config := {|
  llm_model_name := of_string "llama3.2";
  llm_temperature := 3 # 10;
  llm_max_tokens := 512;
  rag_chunk_size := 800;
  rag_chunk_overlap := 150;
  rag_top_k_results := 4;
  languages := map of_string
    ["en"; "es"; "fr"; "de"; "it"; "pt"; "hi"; "zh"; "ja"; "ko"; "ar"; "ru"]%string
|}.

(** ** The session registry and the effects of the server *)

(** An entry of [session_metadata]. *)
Record session := Session {
  connected_at : str;
  language : str;
  message_count : Z
}.

(** The calls that leave the program, in the order they are made. A send is
    recorded when [websocket.send] is called, whether or not it succeeds. *)
Inductive event :=
| EvSend (ws : handle) (frame : dict)
| EvQuery (question : str) (lang : str)
| EvGenerate (req : generate_request)
| EvDecode (payload : json)
| EvTranscribe (audio : bytes) (hint : option str)
| EvInteraction (session_id user_message bot_response lang : str).

Record world := World {
  active_connections : gmap str handle;
  session_metadata : gmap str session;
  trace : list event
}.

(** The external collaborators and the built-ins not reproduced here. A
    collaborator that fails gives the exception it raises.
    - [str_lower]: [str.lower].
    - [ollama_generate]: [ollama.generate], the response or the exception.
    - [websocket_send]: [websocket.send] of the serialized frame, [None] on
      success.
    - [json_loads]: [json.loads], the value decoded or the exception:
      [JSONDecodeError] for a text that is not JSON, and also
      [RecursionError] for a text nested too deeply or [ValueError] for bytes
      that are not UTF-8.
    - [b64decode]: [AudioHandler.base64_to_audio] on the value of
      ["audio_data"].
    - [whisper_transcribe]: [AudioHandler.transcribe_audio], which catches
      its own failures and then returns [("", "unknown")].
    - [write_interaction]: the file write of [logger.log_user_interaction].
    - [now_isoformat], [processing_time_ms]: the readings of the clock that
      the frames carry. *)
Record environment := {
  str_lower : str → str;
  ollama_generate : generate_request → exn + dict;
  websocket_send : handle → dict → option exn;
  json_loads : str → exn + json;
  b64decode : json → exn + bytes;
  whisper_transcribe : bytes → option str → str * str;
  write_interaction : str → str → str → str → option exn;
  now_isoformat : str;
  processing_time_ms : Q
}.

Inductive outcome (A : Type) :=
| Return (a : A)
| Raise (e : exn).
Arguments Return {A} a.
Arguments Raise {A} e.

(** Computations that read and update the [world] and may raise. The
    updates made before an exception is raised are kept. *)
Definition M (A : Type) : Type := world → outcome A * world.

Definition ret {A} (a : A) : M A := λ w, (Return a, w).

Definition raise {A} (e : exn) : M A := λ w, (Raise e, w).

Definition bind {A B} (m : M A) (k : A → M B) : M B :=
  λ w, match m w with
       | (Return a, w') => k a w'
       | (Raise e, w') => (Raise e, w')
       end.

(** [try: m except Exception as e: h e] *)
Definition try_except {A} (m : M A) (h : exn → M A) : M A :=
  λ w, match m w with
       | (Return a, w') => (Return a, w')
       | (Raise e, w') => h e w'
       end.

Definition emit (ev : event) : M unit :=
  λ w, (Return tt, World (active_connections w) (session_metadata w)
                         (trace w ++ [ev])).

Definition get_world : M world := λ w, (Return w, w).

Definition set_active_connections (ac : gmap str handle) : M unit :=
  λ w, (Return tt, World ac (session_metadata w) (trace w)).

Definition set_session_metadata (md : gmap str session) : M unit :=
  λ w, (Return tt, World (active_connections w) md (trace w)).

Notation "'let!' x ':=' m 'in' k" := (bind m (λ x, k))
  (at level 10, x pattern, m at level 100, k at level 200).
Notation "m ';;' k" := (bind m (λ _, k))
  (at level 100, k at level 200, right associativity).

(** [del d[key]]: raises [KeyError] when the key is absent. *)
Definition dict_del {V} (d : gmap str V) (key : str) : exn + gmap str V :=
  match d !! key with
  | Some _ => inr (delete key d)
  | None => inl KeyError
  end.

Definition lift {A} (r : exn + A) : M A :=
  match r with
  | inl e => raise e
  | inr a => ret a
  end.

(** ** rag_engine_simple.py: answering a question *)

Section RagEngine.

Variable E : environment.
(** [self.config] and [self.chunks] *)
Variable config : Config.
Variable chunks : list chunk.

Definition nl : str := [newline].

(** [ollama.generate(model=..., prompt=..., options=...)] *)
Definition generate (req : generate_request) : M dict :=
  emit (EvGenerate req) ;; lift (ollama_generate E req).

(** [response['response'].strip()] *)
Definition response_text (response : dict) : exn + str :=
  match dict_get response (of_string "response") with
  | None => inl KeyError
  | Some (JStr s) => inr (strip s)
  | Some _ => inl AttributeError
  end.

Definition direct_prompt (question : str) : str :=
  of_string "You are a helpful customer support agent. Answer this question professionally:"
  ++ nl ++ nl
  ++ of_string "Question: " ++ question ++ nl ++ nl
  ++ of_string "Answer:".

Definition apology : str :=
  of_string "I apologize, but I'm having trouble processing your request right now.".

(** The request of the ungrounded path. *)
Definition direct_request (question : str) : generate_request := {|
  req_model := llm_model_name config;
  req_prompt := direct_prompt question;
  req_options := [(of_string "temperature", JNum (7 # 10))]
|}.

Definition _get_direct_answer (question : str) : M str :=
  try_except
    (let! response := generate (direct_request question) in
     lift (response_text response))
    (λ _, ret apology).

Definition fallback_en : str :=
  of_string "I apologize, but I'm having trouble answering that. Please try rephrasing your question.".

Definition fallback_es : str :=
  of_string "Disculpe, tengo problemas para responder eso. Por favor, reformule su pregunta.".

(** The two accented letters are U+00E0 and U+00E9. *)
Definition fallback_fr : str :=
  of_string "Je m'excuse, j'ai du mal " ++ [224%N] ++ of_string " r" ++ [233%N]
  ++ of_string "pondre " ++ [224%N]
  ++ of_string " cela. Veuillez reformuler votre question.".

Definition _get_fallback_response (lang : str) : str :=
  let responses : gmap str str :=
    <[of_string "fr" := fallback_fr]>
      (<[of_string "es" := fallback_es]>
         (<[of_string "en" := fallback_en]> ∅)) in
  default (responses !!! of_string "en") (responses !! lang).

Definition grounded_prompt (context question : str) : str :=
  of_string "You are a helpful customer support agent. Use the following context to answer the question."
  ++ nl ++ nl
  ++ of_string "Context from knowledge base:" ++ nl
  ++ context ++ nl ++ nl
  ++ of_string "Customer Question: " ++ question ++ nl ++ nl
  ++ of_string "Instructions:" ++ nl
  ++ of_string "- Be polite and professional" ++ nl
  ++ of_string "- Answer based on the context provided" ++ nl
  ++ of_string "- If you don't know, say " ++ [34%N]
  ++ of_string "I don't have that information in my knowledge base" ++ [34%N] ++ nl
  ++ of_string "- Keep answers clear and concise" ++ nl ++ nl
  ++ of_string "Your Response:".

(** The request of the grounded path. *)
Definition grounded_request (relevant_chunks : list chunk) (question : str)
  : generate_request := {|
    req_model := llm_model_name config;
    req_prompt :=
      grounded_prompt (join (nl ++ nl) (map content relevant_chunks)) question;
    req_options := [(of_string "temperature", JNum (llm_temperature config));
                    (of_string "num_predict", JNum (inject_Z (llm_max_tokens config)))]
  |}.

(** The body of the [try] of [query]. *)
Definition query_body (question : str) : M (str * list Document) :=
  let relevant_chunks := _simple_search (str_lower E) chunks question 3 in
  match relevant_chunks with
  | [] =>
      let! answer := _get_direct_answer question in
      ret (answer, [])
  | _ :: _ =>
      let! response := generate (grounded_request relevant_chunks question) in
      let! answer := lift (response_text response) in
      let source_docs :=
        map (λ c, {| page_content := content c;
                     metadata := [(of_string "source", JStr (source c))] |})
            relevant_chunks in
      ret (answer, source_docs)
  end.

(** [query]: the call is recorded on entry; the calls to the logger are
    left out. *)
Definition query (question : str) (lang : str) : M (str * list Document) :=
  emit (EvQuery question lang) ;;
  try_except (query_body question)
             (λ _, ret (_get_fallback_response lang, [])).

End RagEngine.

(** ** websocket_server.py: ConnectionManager *)

Section ConnectionManager.

Variable E : environment.

(** [connect]; [session_id] is the value of [str(uuid.uuid4())]. *)
Definition connect (websocket : handle) (session_id : str) : M str :=
  let! w := get_world in
  set_active_connections (<[session_id := websocket]> (active_connections w)) ;;
  let! w := get_world in
  set_session_metadata
    (<[session_id := {| connected_at := now_isoformat E;
                        language := of_string "en";
                        message_count := 0 |}]> (session_metadata w)) ;;
  ret session_id.

Definition disconnect (session_id : str) : M unit :=
  let! w := get_world in
  (if decide (is_Some (active_connections w !! session_id))
   then let! ac := lift (dict_del (active_connections w) session_id) in
        set_active_connections ac
   else ret tt) ;;
  let! w := get_world in
  if decide (is_Some (session_metadata w !! session_id))
  then let! md := lift (dict_del (session_metadata w) session_id) in
       set_session_metadata md
  else ret tt.

(** [await self.active_connections[session_id].send(json.dumps(message))] *)
Definition send (ws : handle) (message : dict) : M unit :=
  emit (EvSend ws message) ;;
  match websocket_send E ws message with
  | Some e => raise e
  | None => ret tt
  end.

Definition send_message (session_id : str) (message : dict) : M unit :=
  let! w := get_world in
  match active_connections w !! session_id with
  | Some ws => try_except (send ws message) (λ _, ret tt)
  | None => ret tt
  end.

Definition get_session_language (session_id : str) : M str :=
  let! w := get_world in
  ret (match session_metadata w !! session_id with
       | Some s => language s
       | None => of_string "en"
       end).

Definition set_session_language (session_id : str) (lang : str) : M unit :=
  let! w := get_world in
  match session_metadata w !! session_id with
  | Some s =>
      set_session_metadata
        (<[session_id := {| connected_at := connected_at s;
                            language := lang;
                            message_count := message_count s |}]>
           (session_metadata w))
  | None => ret tt
  end.

Definition increment_message_count (session_id : str) : M unit :=
  let! w := get_world in
  match session_metadata w !! session_id with
  | Some s =>
      set_session_metadata
        (<[session_id := {| connected_at := connected_at s;
                            language := language s;
                            message_count := (message_count s + 1)%Z |}]>
           (session_metadata w))
  | None => ret tt
  end.

End ConnectionManager.

(** ** websocket_server.py: SupportAgentServer *)

Section SupportAgentServer.

Variable E : environment.
Variable config : Config.
(** [self.rag_engine.chunks] *)
Variable chunks : list chunk.

Definition error_frame (error_message : str) : dict :=
  [(of_string "type", JStr (of_string "error"));
   (of_string "message", JStr error_message);
   (of_string "timestamp", JStr (now_isoformat E))].

Definition _send_error (session_id : str) (error_message : str) : M unit :=
  send_message E session_id (error_frame error_message).

Definition typing_frame (is_typing : bool) : dict :=
  [(of_string "type", JStr (of_string "typing"));
   (of_string "is_typing", JBool is_typing)].

Definition _send_typing_indicator (session_id : str) (is_typing : bool) : M unit :=
  send_message E session_id (typing_frame is_typing).

(** [x.strip()] on a value read from a message: only a string has the
    method. *)
Definition strip_value (v : json) : M str :=
  match v with
  | JStr s => ret (strip s)
  | _ => raise AttributeError
  end.

(** One item of the ["sources"] list of the response. *)
Definition source_record (doc : Document) : json :=
  JObj [(of_string "source",
         default (JStr (of_string "Unknown"))
                 (dict_get (metadata doc) (of_string "source")));
        (of_string "excerpt",
         JStr (slice_to 150 (page_content doc) ++ of_string "..."))].

Definition text_response (answer : str) (sources : list Document) : dict :=
  [(of_string "type", JStr (of_string "text"));
   (of_string "content", JStr answer);
   (of_string "sources", JArr (map source_record (slice_to 2 sources)));
   (of_string "timestamp", JStr (now_isoformat E));
   (of_string "processing_time_ms", JNum (processing_time_ms E))].

(** [self.logger.log_user_interaction(...)]: it appends to a file, which
    can fail. *)
Definition log_user_interaction (session_id user_message bot_response lang : str)
  : M unit :=
  emit (EvInteraction session_id user_message bot_response lang) ;;
  match write_interaction E session_id user_message bot_response lang with
  | Some e => raise e
  | None => ret tt
  end.

Definition _handle_text_message (session_id : str) (message : dict) : M unit :=
  let! user_message :=
    strip_value (default (JStr []) (dict_get message (of_string "content"))) in
  match user_message with
  | [] => _send_error session_id (of_string "Empty message")
  | _ :: _ =>
      let! lang := get_session_language session_id in
      _send_typing_indicator session_id true ;;
      let! (answer, sources) := query E config chunks user_message lang in
      _send_typing_indicator session_id false ;;
      send_message E session_id (text_response answer sources) ;;
      log_user_interaction session_id user_message answer lang ;;
      increment_message_count session_id
  end.

(** The body is [pass]. *)
Definition _send_audio_response (session_id : str) (lang : str) : M unit :=
  ret tt.

Definition transcription_frame (transcribed_text detected_language : str) : dict :=
  [(of_string "type", JStr (of_string "transcription"));
   (of_string "content", JStr transcribed_text);
   (of_string "detected_language", JStr detected_language)].

(** [self.audio_handler.base64_to_audio] and [transcribe_audio] *)
Definition base64_to_audio (payload : json) : M bytes :=
  emit (EvDecode payload) ;; lift (b64decode E payload).

Definition transcribe_audio (audio : bytes) (hint : option str) : M (str * str) :=
  emit (EvTranscribe audio hint) ;; ret (whisper_transcribe E audio hint).

Definition _handle_audio_message (session_id : str) (message : dict) : M unit :=
  try_except
    (let audio_base64 :=
       default (JStr []) (dict_get message (of_string "audio_data")) in
     if negb (truthy audio_base64)
     then _send_error session_id (of_string "No audio data")
     else
       let! audio_bytes := base64_to_audio audio_base64 in
       let! language_hint := get_session_language session_id in
       let! (transcribed_text, detected_language) :=
         transcribe_audio audio_bytes
           (if decide (language_hint ≠ of_string "en")
            then Some language_hint else None) in
       match transcribed_text with
       | [] => _send_error session_id (of_string "Could not transcribe audio")
       | _ :: _ =>
           (if decide (detected_language ≠ language_hint)
            then set_session_language session_id detected_language
            else ret tt) ;;
           send_message E session_id
             (transcription_frame transcribed_text detected_language) ;;
           _handle_text_message session_id
             [(of_string "content", JStr transcribed_text)] ;;
           if truthy (default (JBool false)
                        (dict_get message (of_string "want_audio_response")))
           then _send_audio_response session_id detected_language
           else ret tt
       end)
    (λ _, _send_error session_id (of_string "Audio processing failed")).

Definition language_changed_frame (new_language : str) : dict :=
  [(of_string "type", JStr (of_string "system"));
   (of_string "message", JStr (of_string "Language changed to " ++ new_language));
   (of_string "language", JStr new_language)].

Definition _handle_language_change (session_id : str) (message : dict) : M unit :=
  let new_language :=
    default (JStr (of_string "en")) (dict_get message (of_string "language")) in
  match new_language with
  | JStr code =>
      if decide (code ∈ languages config)
      then set_session_language session_id code ;;
           send_message E session_id (language_changed_frame code)
      else _send_error session_id (of_string "Unsupported language")
  | _ => _send_error session_id (of_string "Unsupported language")
  end.

(** [message.get("type", "text")]: only a dict has [get]. *)
Definition message_get_type (message : json) : M (dict * json) :=
  match message with
  | JObj d => ret (d, default (JStr (of_string "text")) (dict_get d (of_string "type")))
  | _ => raise AttributeError
  end.

(** The two [except] clauses of [_process_message]. *)
Definition process_message_except (session_id : str) (e : exn) : M unit :=
  match e with
  | JSONDecodeError => _send_error session_id (of_string "Invalid JSON")
  | _ => _send_error session_id (of_string "Internal server error")
  end.

Definition _process_message (session_id : str) (raw_message : str) : M unit :=
  try_except
    (let! message :=
       match json_loads E raw_message with
       | inr v => ret v
       | inl e => raise e
       end in
     let! (message, message_type) := message_get_type message in
     if eq_str message_type (of_string "text")
     then _handle_text_message session_id message
     else if eq_str message_type (of_string "audio")
     then _handle_audio_message session_id message
     else if eq_str message_type (of_string "language")
     then _handle_language_change session_id message
     else _send_error session_id (of_string "Unknown message type"))
    (process_message_except session_id).

End SupportAgentServer.

(** ** Vocabulary of the statements *)

(** Non-increasing order of the keys. *)
Definition desc {A} (key : A → nat) : relation A := λ a b, key b ≤ key a.

(** [w] occurs in [s] as a substring. *)
Definition substring (w s : str) : Prop := ∃ pre post, s = pre ++ w ++ post.

(** [n] is the number of distinct words of the lowercased, whitespace-split
    [query] that occur as substrings of the lowercased content of [c]. *)
Definition counts_matching_words (lower : str → str) (query : str) (c : chunk)
    (n : nat) : Prop :=
  ∃ words, NoDup words
           ∧ (∀ w, w ∈ words ↔
                   w ∈ split (lower query) ∧ substring w (lower (content c)))
           ∧ length words = n.

(** [s] is made of whitespace only. *)
Definition blank (s : str) : Prop := Forall (λ c, is_space c = true) s.

(** [s] has no leading and no trailing whitespace. *)
Definition stripped (s : str) : Prop := lstrip s = s ∧ lstrip (rev s) = rev s.

(** [s] has no blank-line break: no two consecutive newlines. *)
Definition blank_line_free (s : str) : Prop :=
  contains [newline; newline] s = false.

(** The events a call to [send_message] adds to the trace: one send when the
    session is connected, none otherwise. *)
Definition sent (w : world) (session_id : str) (frame : dict) : list event :=
  match active_connections w !! session_id with
  | Some ws => [EvSend ws frame]
  | None => []
  end.

(** [m], run from any world, extends the trace by events that satisfy [P],
    and the value it returns, if it returns, satisfies [Q]. *)
Definition emits {A} (P : event → Prop) (Q : A → Prop) (m : M A) : Prop :=
  ∀ w, ∃ evs, trace (m w).2 = trace w ++ evs
              ∧ Forall P evs
              ∧ match (m w).1 with
                | Return a => Q a
                | Raise _ => True
                end.

Definition is_send (ev : event) : bool :=
  match ev with
  | EvSend _ _ => true
  | _ => false
  end.

(** [doc] is the source document [query] builds for a stored chunk. *)
Definition doc_of_chunk (chunks : list chunk) (doc : Document) : Prop :=
  ∃ c, c ∈ chunks
       ∧ page_content doc = content c
       ∧ metadata doc = [(of_string "source", JStr (source c))].

(** [record] names a stored chunk and carries the first 150 characters of
    its content followed by the ellipsis. *)
Definition excerpt_of_chunk (chunks : list chunk) (record : json) : Prop :=
  ∃ c, c ∈ chunks
       ∧ record = JObj [(of_string "source", JStr (source c));
                        (of_string "excerpt",
                         JStr (take 150 (content c) ++ of_string "..."))].

(** What is required of a frame of type "text": at most two source
    records, each an excerpt of a stored chunk. *)
Definition text_frame_ok (chunks : list chunk) (frame : dict) : Prop :=
  dict_get frame (of_string "type") = Some (JStr (of_string "text")) →
  ∃ records, dict_get frame (of_string "sources") = Some (JArr records)
             ∧ length records ≤ 2
             ∧ Forall (excerpt_of_chunk chunks) records.

(** [ev] is not the sending of the "Unknown message type" error. *)
Definition known_type (E : environment) (ev : event) : Prop :=
  ∀ ws, ev ≠ EvSend ws (error_frame E (of_string "Unknown message type")).

(** ** Sample data *)

Module Sample.

(** A backend that answers every request. *)
Definition answering (req : generate_request) : exn + dict :=
  inr [(of_string "response", JStr (of_string " We are open 24/7. "))].

(** A backend that is down. *)
Definition unreachable (req : generate_request) : exn + dict :=
  inl (RuntimeError (of_string "connection refused")).

Definition env_with (backend : generate_request → exn + dict) : environment := {|
  str_lower := ascii_lower;
  ollama_generate := backend;
  websocket_send := λ _ _, None;
  json_loads := λ raw,
    if decide (raw = of_string "{}") then inr (JObj [])
    else inl JSONDecodeError;
  b64decode := λ _, inr [];
  whisper_transcribe := λ _ _, (of_string "what are your hours", of_string "en");
  write_interaction := λ _ _ _ _, None;
  now_isoformat := of_string "2024-05-01T12:00:00";
  processing_time_ms := 42
|}.

Definition env : environment := env_with answering.
Definition env_down : environment := env_with unreachable.

Definition faq : str := of_string "faq.txt".

Definition kb : list chunk :=
  [ Chunk (of_string "Q: What are your hours? A: 24/7.") faq faq;
    Chunk (of_string "Q: How long does shipping take? A: 5-7 business days.") faq faq;
    Chunk (of_string "Q: What are your opening hours on holidays? A: 24/7 as well.") faq faq ].

Definition alice : str := of_string "session-a".
Definition bob : str := of_string "session-b".

(** Two connected sessions. *)
Definition two_sessions : world := {|
  active_connections := <[bob := 2]> (<[alice := 1]> ∅);
  session_metadata :=
    <[bob := Session (of_string "2024-05-01T11:59:00") (of_string "fr") 3]>
      (<[alice := Session (of_string "2024-05-01T11:58:00") (of_string "en") 0]> ∅);
  trace := []
|}.

End Sample.


(** * The rest of the program *)

(** ** rag_engine_simple.py: ingestion and statistics *)

(** The dict [stats] of [ingest_documents]. *)
Record ingest_stats := IngestStats {
  successful : Z;
  failed : Z;
  total_chunks : Z
}.

Section Ingestion.

(** [open(path, 'r', encoding='utf-8').read()]: the text of the file, or the
    exception that opening or reading it raises. *)
Variable read_text : str → exn + str.

(** [Path(path).name] *)
Variable path_name : str → str.

(** One iteration of the loop over [file_paths]; the loop state is
    [(self.chunks, stats)]. [_split_text] is called with its default
    arguments. *)
Definition ingest_step (st : list chunk * ingest_stats) (file_path : str)
  : list chunk * ingest_stats :=
  let '(store, stats) := st in
  match read_text file_path with
  | inr text =>
      let chunks := _split_text text 800 150 in
      (store ++ map (λ chunk, Chunk chunk (path_name file_path) file_path) chunks,
       IngestStats (successful stats + 1) (failed stats)
                   (total_chunks stats + Z.of_nat (length chunks)))
  | inl _ =>
      (store, IngestStats (successful stats) (failed stats + 1) (total_chunks stats))
  end.

(** [ingest_documents]: the store after the call and the statistics it
    returns. *)
Definition ingest_documents (store : list chunk) (file_paths : list str)
  : list chunk * ingest_stats :=
  foldl ingest_step (store, IngestStats 0 0 0) file_paths.

End Ingestion.

(** The dict that [get_statistics] returns. *)
Record statistics := Statistics {
  stats_total_chunks : nat;
  stats_total_documents : nat;
  stats_model : str
}.

Definition get_statistics (config : Config) (chunks : list chunk) : statistics := {|
  stats_total_chunks := length chunks;
  stats_total_documents := length (remove_dups (map source chunks));
  stats_model := llm_model_name config
|}.

(** ** audio_handler.py *)

Module AudioHandler.

(** What [whisper_model.transcribe] gives for the audio written to the
    temporary file: [result['text']] and [result.get('language')], or the
    exception raised on the way. *)
Abbreviation whisper := (bytes → option str → exn + (str * option str)).

(** The fields of the handler that transcription reads. *)
Record t := Make {
  audio_enabled : bool;
  whisper_model : option whisper
}.

(** [__init__], from the two flags set when the module is imported. *)
Definition init (WHISPER_AVAILABLE GTTS_AVAILABLE : bool) : t := {|
  audio_enabled := WHISPER_AVAILABLE && GTTS_AVAILABLE;
  whisper_model := None
|}.

(** [initialize]: the value returned and the handler afterwards;
    [load_model] is the outcome of [whisper.load_model]. *)
Definition initialize (load_model : exn + whisper) (h : t) : bool * t :=
  if negb (audio_enabled h) then (true, h)
  else match load_model with
       | inr model => (true, Make (audio_enabled h) (Some model))
       | inl _ => (true, Make false (whisper_model h))
       end.

Definition transcribe_audio (h : t) (audio_data : bytes) (lang : option str)
  : str * str :=
  match audio_enabled h, whisper_model h with
  | true, Some model =>
      match model audio_data lang with
      | inr (text, detected) => (strip text, default (of_string "unknown") detected)
      | inl _ => ([], of_string "unknown")
      end
  | _, _ => ([], of_string "unknown")
  end.

End AudioHandler.

(** ** websocket_server.py: the life of a connection *)

(** [try: m finally: f] *)
Definition try_finally {A} (m : M A) (f : M unit) : M A :=
  λ w, match m w with
       | (r, w') =>
           match f w' with
           | (Return _, w'') => (r, w'')
           | (Raise e, w'') => (Raise e, w'')
           end
       end.

Section Connection.

Variable E : environment.
Variable config : Config.
Variable chunks : list chunk.

Definition welcome_frame (session_id : str) : dict :=
  [(of_string "type", JStr (of_string "system"));
   (of_string "session_id", JStr session_id);
   (of_string "message",
    JStr (of_string "Welcome to Customer Support! How can I help you today?"));
   (of_string "timestamp", JStr (now_isoformat E));
   (of_string "supported_languages", JArr (map JStr (languages config)))].

Definition _send_welcome_message (session_id : str) : M unit :=
  send_message E session_id (welcome_frame session_id).

(** [async for raw_message in websocket: await self._process_message(...)]:
    [incoming] are the messages received; the iteration then ends, or
    raises [closing] when the connection is lost. *)
Fixpoint receive_loop (session_id : str) (incoming : list str)
    (closing : option exn) : M unit :=
  match incoming with
  | [] => match closing with
          | None => ret tt
          | Some e => raise e
          end
  | raw_message :: rest =>
      _process_message E config chunks session_id raw_message ;;
      receive_loop session_id rest closing
  end.

(** [handle_connection], for one connection run from its acceptance to its
    end; [fresh_id] is the value of [str(uuid.uuid4())] in [connect]. Both
    [except] clauses only log. [path] is not read. *)
Definition handle_connection (websocket : handle) (path : str)
    (fresh_id : str) (incoming : list str) (closing : option exn) : M unit :=
  let! session_id := connect E websocket fresh_id in
  try_finally
    (try_except
       (_send_welcome_message session_id ;;
        receive_loop session_id incoming closing)
       (λ _, ret tt))
    (disconnect session_id).

End Connection.

(** ** Vocabulary of the statements, continued *)

(** The result of the search with the slice left out: all the chunks that
    match, best first. *)
Definition ranking (lower : str → str) (chunks : list chunk) (query : str)
  : list chunk :=
  map snd (sort_desc fst (scored_chunks lower query chunks)).

#[global] Instance chunk_eq_dec : EqDecision chunk.
Proof. solve_decision. Defined.

(** The stored chunks that share a word with the query, in the order of the
    store. *)
Definition matching (lower : str → str) (chunks : list chunk) (query : str)
  : list chunk :=
  filter (λ c, 1 ≤ chunk_score lower query c) chunks.

(** The file at [file_path] can be read. *)
Definition readable (read_text : str → exn + str) (file_path : str) : bool :=
  match read_text file_path with
  | inr _ => true
  | inl _ => false
  end.

(** The chunks that one file contributes to the store: none when it cannot
    be read. *)
Definition file_chunks (read_text : str → exn + str) (path_name : str → str)
    (file_path : str) : list chunk :=
  match read_text file_path with
  | inr text =>
      map (λ chunk, Chunk chunk (path_name file_path) file_path)
          (_split_text text 800 150)
  | inl _ => []
  end.

(** The sum of two statistics. *)
Definition add_stats (a b : ingest_stats) : ingest_stats :=
  IngestStats (successful a + successful b) (failed a + failed b)
              (total_chunks a + total_chunks b).

(** The paragraphs that [_split_text] accumulates: the pieces between blank
    lines, stripped, the empty ones left out. *)
Definition paragraphs_of (text : str) : list str :=
  filter (λ p, p ≠ []) (map strip (re_split_blank_lines text)).

(** A paragraph as the loop of [_split_text] sees it: stripped and not
    empty. *)
Definition paragraph (p : str) : Prop := stripped p ∧ p ≠ [].

(** A group of paragraphs fits: it is a single paragraph, or joined by blank
    lines it is shorter than [chunk_size]. *)
Definition fits (chunk_size : Z) (group : list str) : Prop :=
  length group = 1
  ∨ (Z.of_nat (length (join [newline; newline] group)) < chunk_size)%Z.

(** [chunks] are the paragraphs in their order, cut into consecutive groups
    that fit, the paragraphs of a group joined by blank lines. *)
Definition grouped (chunk_size : Z) (paragraphs chunks : list str) : Prop :=
  ∃ groups, concat groups = paragraphs
            ∧ Forall (λ group, group ≠ []) groups
            ∧ Forall (fits chunk_size) groups
            ∧ chunks = map (join [newline; newline]) groups.

(** The groups are filled up to the threshold: a group is closed only when
    the next paragraph, joined to it by a blank line, would bring it to
    [chunk_size] characters or more. *)
Definition filled (chunk_size : Z) (groups : list (list str)) : Prop :=
  ∀ i group para next,
    groups !! i = Some group →
    groups !! S i = Some (para :: next) →
    (chunk_size ≤ Z.of_nat (length (join [newline; newline] (group ++ [para]))))%Z.

(** [chunks] are the paragraphs accumulated with a flush at the threshold:
    grouped as above, every group filled up to [chunk_size]. *)
Definition accumulated (chunk_size : Z) (paragraphs chunks : list str) : Prop :=
  ∃ groups, concat groups = paragraphs
            ∧ Forall (λ group, group ≠ []) groups
            ∧ Forall (fits chunk_size) groups
            ∧ filled chunk_size groups
            ∧ chunks = map (join [newline; newline]) groups.

(** [pieces] are [text] cut at its blank-line boundaries: what stood between
    two consecutive pieces is a run of two or more newlines, and no piece
    holds a blank-line break. *)
Inductive cut_at_blank_lines : str → list str → Prop :=
| cut_last (piece : str) :
    blank_line_free piece → cut_at_blank_lines piece [piece]
| cut_more (piece : str) (n : nat) (text : str) (pieces : list str) :
    blank_line_free piece →
    cut_at_blank_lines text pieces →
    cut_at_blank_lines (piece ++ repeat newline (2 + n) ++ text)
                       (piece :: pieces).

(** The state of the loop of [_split_text] after the paragraphs [done]:
    nothing yet, or the groups flushed and the group being accumulated. *)
Definition chunking_inv (chunk_size : Z) (done : list str)
    (st : list str * str) : Prop :=
  (done = [] ∧ st = ([], []))
  ∨ ∃ groups group,
      st = (map (join [newline; newline]) groups,
            join [newline; newline] group ++ [newline; newline])
      ∧ concat (groups ++ [group]) = done
      ∧ group ≠ []
      ∧ Forall (λ group, group ≠ []) groups
      ∧ Forall (fits chunk_size) (groups ++ [group])
      ∧ filled chunk_size (groups ++ [group]).

(** [m] never raises: from every world it returns a value. *)
Definition never_raises {A} (m : M A) : Prop :=
  ∀ w, ∃ a, (m w).1 = Return a.

(** The world after [m] is related by [R] to the world before. *)
Definition keeps {A} (R : relation world) (m : M A) : Prop :=
  ∀ w, R w (m w).2.

(** [message_count] of a session, 0 when it has no entry. *)
Definition count_of (w : world) (session_id : str) : Z :=
  match session_metadata w !! session_id with
  | Some s => message_count s
  | None => 0
  end.

(** [language] of a session, if it has an entry. *)
Definition language_of (w : world) (session_id : str) : option str :=
  language <$> session_metadata w !! session_id.

(** [ev], if it is a send, goes to the transport handle [h]. *)
Definition sends_to (h : option handle) (ev : event) : Prop :=
  match ev with
  | EvSend ws _ => h = Some ws
  | _ => True
  end.

(** What the handling of a frame of [session_id] may do to the world: the
    transport handles and the set of sessions stay as they are, the entries
    of the other sessions too, the session keeps its time of connection and
    its counter does not decrease, and every frame sent goes to the
    session's own transport handle. *)
Record session_step (session_id : str) (w w' : world) : Prop := SessionStep {
  step_connections : active_connections w' = active_connections w;
  step_sessions : dom (session_metadata w') = dom (session_metadata w);
  step_others :
    ∀ other, other ≠ session_id →
             session_metadata w' !! other = session_metadata w !! other;
  step_connected_at :
    connected_at <$> session_metadata w' !! session_id
    = connected_at <$> session_metadata w !! session_id;
  step_count : (count_of w session_id ≤ count_of w' session_id)%Z;
  step_trace :
    ∃ evs, trace w' = trace w ++ evs
           ∧ Forall (sends_to (active_connections w !! session_id)) evs
}.

(** The frame is answered by one error frame and nothing else happens: the
    tables are as before and the trace gains the sending of the error, if
    the session is connected. *)
Definition error_reply (E : environment) (session_id error_message : str)
    (w : world) : outcome unit * world :=
  (Return tt,
   World (active_connections w) (session_metadata w)
         (trace w ++ sent w session_id (error_frame E error_message))).

(** The events of a text frame that is answered: the typing indicator, the
    query with its one backend call, the end of the indicator, the response
    and the record of the interaction. *)
Definition answered (E : environment) (session_id : str) (ws : handle)
    (question lang answer : str) (sources : list Document)
    (req : generate_request) : list event :=
  [EvSend ws (typing_frame true);
   EvQuery question lang;
   EvGenerate req;
   EvSend ws (typing_frame false);
   EvSend ws (text_response E answer sources);
   EvInteraction session_id question answer lang].

(** The entry of a session after one more message. *)
Definition counted (s : session) : session :=
  Session (connected_at s) (language s) (message_count s + 1).

(** The language hint that [_handle_audio_message] passes to the
    transcription: the language of the session unless it is "en" (also the
    value read for a session that has no entry). *)
Definition hint_of (w : world) (session_id : str) : option str :=
  match session_metadata w !! session_id with
  | Some s => if decide (language s ≠ of_string "en") then Some (language s) else None
  | None => None
  end.

(** The two session tables have the same keys. *)
Definition consistent (w : world) : Prop :=
  dom (active_connections w) = dom (session_metadata w).

(** The frames sent, in order, with the handle they are sent to. *)
Definition frames (evs : list event) : list (handle * dict) :=
  omap (λ ev, match ev with
              | EvSend ws frame => Some (ws, frame)
              | _ => None
              end) evs.

(** ** Sample data, continued *)

Module Sample2.

(** Two readable files with the same name in two directories, and one that
    cannot be read. *)
Definition read_text (file_path : str) : exn + str :=
  if decide (file_path = of_string "kb/faq.txt")
  then inr (of_string "Q: What are your hours?" ++ [newline; newline]
            ++ of_string "A: 24/7." ++ [newline])
  else if decide (file_path = of_string "old/faq.txt")
  then inr (of_string "Q: Do you ship abroad? A: Yes." ++ [newline])
  else inl OSError.

(** The part after the last slash; [cur] holds it, reversed. *)
Fixpoint last_component (cur : str) (file_path : str) : str :=
  match file_path with
  | [] => rev cur
  | c :: rest =>
      if (c =? 47)%N then last_component [] rest
      else last_component (c :: cur) rest
  end.

Definition path_name (file_path : str) : str := last_component [] file_path.

Definition paths : list str :=
  [of_string "kb/faq.txt"; of_string "missing.txt"; of_string "old/faq.txt"].

(** A model that hears French. *)
Definition model : AudioHandler.whisper :=
  λ _ _, inr (of_string " Quels sont vos horaires ? ", Some (of_string "fr")).

(** The environment with the transcription of a given audio handler and
    with [{"type": "text", "content": "What are your hours?"}] as the only
    frame that decodes. *)
Definition env_of (h : AudioHandler.t) (write : option exn) : environment := {|
  str_lower := ascii_lower;
  ollama_generate := Sample.answering;
  websocket_send := λ _ _, None;
  json_loads := λ raw,
    if decide (raw = of_string "hours")
    then inr (JObj [(of_string "type", JStr (of_string "text"));
                    (of_string "content", JStr (of_string "What are your hours?"))])
    else if decide (raw = of_string "[]") then inr (JArr [])
    else if decide (raw = of_string "ping")
    then inr (JObj [(of_string "type", JStr (of_string "ping"))])
    else if decide (raw = of_string "nested") then inl RecursionError
    else inl JSONDecodeError;
  b64decode := λ _, inr [];
  whisper_transcribe := AudioHandler.transcribe_audio h;
  write_interaction := λ _ _ _ _, write;
  now_isoformat := of_string "2024-05-01T12:00:00";
  processing_time_ms := 42
|}.

Definition env : environment :=
  env_of (AudioHandler.Make true (Some model)) None.

Definition env_no_audio : environment :=
  env_of (AudioHandler.init false true) None.

Definition env_disk_full : environment :=
  env_of (AudioHandler.init false true) (Some OSError).

Definition env_audio_disk_full : environment :=
  env_of (AudioHandler.Make true (Some model)) (Some OSError).

End Sample2.

(** * Properties *)

(** ** The built-ins on small inputs *)

Example split_drops_whitespace :
  split (of_string "  What are   your hours ")
  = map of_string ["What"; "are"; "your"; "hours"]%string.
Proof. reflexivity. Qed.

Example strip_keeps_inner_whitespace :
  strip (of_string "  24/7 as well. " ++ nl) = of_string "24/7 as well.".
Proof. reflexivity. Qed.

Example contains_inside_a_word :
  contains (of_string "hour") (of_string "our hours") = true
  ∧ contains (of_string "hours") (of_string "hour") = false.
Proof. split; reflexivity. Qed.

(** Three newlines are one separator, a single newline is none, and a
    separator at the end leaves an empty last piece. *)
Example re_split_runs_of_newlines :
  re_split_blank_lines
    (of_string "a" ++ nl ++ nl ++ nl ++ of_string "b" ++ nl ++ of_string "c"
     ++ nl ++ nl)
  = [of_string "a"; of_string "b" ++ nl ++ of_string "c"; []].
Proof. reflexivity. Qed.

Example slice_to_negative : slice_to (-1) [1; 2; 3] = [1; 2].
Proof. reflexivity. Qed.

Example sort_desc_keeps_ties_in_order :
  sort_desc fst [(1, "a"); (2, "b"); (1, "c"); (2, "d")]%string
  = [(2, "b"); (2, "d"); (1, "a"); (1, "c")]%string.
Proof. reflexivity. Qed.

(** Two short paragraphs are accumulated into one chunk; with a threshold
    they reach, each is flushed on its own. *)
Example split_text_accumulates :
  _split_text (of_string "Q: hours?" ++ nl ++ nl ++ of_string "A: 24/7." ++ nl) 800 150
  = [of_string "Q: hours?" ++ nl ++ nl ++ of_string "A: 24/7."]
  ∧ _split_text (of_string "Q: hours?" ++ nl ++ nl ++ of_string "A: 24/7." ++ nl) 12 150
    = [of_string "Q: hours?"; of_string "A: 24/7."].
Proof. split; reflexivity. Qed.

(** The sample store ranked for a question: the first and the third chunk
    hold its four words, the second none; the two of equal score come in
    their order of insertion. *)
Example search_sample_store :
  map (chunk_score ascii_lower (of_string "What are your hours")) Sample.kb
  = [4; 0; 4]
  ∧ _simple_search ascii_lower Sample.kb (of_string "What are your hours") 3
    = [Chunk (of_string "Q: What are your hours? A: 24/7.") Sample.faq Sample.faq;
       Chunk (of_string "Q: What are your opening hours on holidays? A: 24/7 as well.")
             Sample.faq Sample.faq].
Proof. split; reflexivity. Qed.

(** ** The stable descending sort *)

Section SortFacts.

Context {A : Type} (key : A → nat).

Lemma insert_desc_Permutation (x : A) (l : list A) :
  insert_desc key x l ≡ₚ x :: l.
Proof.
  induction l as [|y l IH]; simpl; [done|].
  destruct (key x <? key y); [|done].
  rewrite IH. apply Permutation_swap.
Qed.

Lemma sort_desc_Permutation (l : list A) : sort_desc key l ≡ₚ l.
Proof.
  induction l as [|x l IH]; simpl; [done|].
  rewrite insert_desc_Permutation. by f_equiv.
Qed.

Lemma insert_desc_sorted (x : A) (l : list A) :
  StronglySorted (desc key) l → StronglySorted (desc key) (insert_desc key x l).
Proof.
  induction 1 as [|y l Hl IH Hy]; simpl.
  - repeat constructor.
  - destruct (Nat.ltb_spec (key x) (key y)) as [Hlt|Hge].
    + constructor; [done|].
      rewrite insert_desc_Permutation. constructor; [|done].
      unfold desc. lia.
    + constructor; [by constructor|].
      constructor; [done|].
      eapply Forall_impl; [exact Hy|]. unfold desc. intros z ?. lia.
Qed.

Lemma sort_desc_sorted (l : list A) : StronglySorted (desc key) (sort_desc key l).
Proof.
  induction l as [|x l IH]; simpl; [constructor|].
  by apply insert_desc_sorted.
Qed.

(** Stability: among the elements of one key the order is unchanged. *)
Lemma insert_desc_filter (s : nat) (x : A) (l : list A) :
  filter (λ a, key a = s) (insert_desc key x l)
  = filter (λ a, key a = s) (x :: l).
Proof.
  induction l as [|y l IH]; simpl; [done|].
  destruct (Nat.ltb_spec (key x) (key y)) as [Hlt|Hge]; [|done].
  rewrite filter_cons, IH, !filter_cons.
  repeat case_decide; try done; lia.
Qed.

Lemma sort_desc_filter (s : nat) (l : list A) :
  filter (λ a, key a = s) (sort_desc key l) = filter (λ a, key a = s) l.
Proof.
  induction l as [|x l IH]; simpl; [done|].
  by rewrite insert_desc_filter, !filter_cons, IH.
Qed.

(** A stable sort is determined by these properties: two sorted lists
    with the same elements of each key, in the same order, are equal. So
    [sort_desc] gives the list that any stable sort gives. *)
Lemma stable_sort_unique (l1 l2 : list A) :
  StronglySorted (desc key) l1 → StronglySorted (desc key) l2 →
  (∀ s, filter (λ a, key a = s) l1 = filter (λ a, key a = s) l2) →
  l1 = l2.
Proof.
  intros H1. revert l2.
  induction H1 as [|x l1 Hl1 IH Hx]; intros l2 H2 Hsame.
  - destruct l2 as [|y l2]; [done|].
    specialize (Hsame (key y)). rewrite filter_cons_True in Hsame by done.
    done.
  - destruct H2 as [|y l2 Hl2 Hy].
    { specialize (Hsame (key x)). rewrite filter_cons_True in Hsame by done.
      done. }
    assert (Hkey : key x = key y).
    { assert (x ∈ y :: l2) as Hxin.
      { pose proof (Hsame (key x)) as Hs.
        rewrite filter_cons_True in Hs by done.
        assert (x ∈ filter (λ a, key a = key x) (y :: l2)) as Hin
          by (rewrite <- Hs; by left).
        by apply list_elem_of_filter in Hin as [_ ?]. }
      assert (y ∈ x :: l1) as Hyin.
      { pose proof (Hsame (key y)) as Hs.
        rewrite (filter_cons_True _ y) in Hs by done.
        assert (y ∈ filter (λ a, key a = key y) (x :: l1)) as Hin
          by (rewrite Hs; by left).
        by apply list_elem_of_filter in Hin as [_ ?]. }
      rewrite Forall_forall in Hx, Hy. unfold desc in Hx, Hy.
      apply elem_of_cons in Hxin as [->|Hxin]; [done|].
      apply elem_of_cons in Hyin as [->|Hyin]; [done|].
      specialize (Hx _ Hyin). specialize (Hy _ Hxin). lia. }
    pose proof (Hsame (key x)) as Hhead.
    rewrite filter_cons_True in Hhead by done.
    rewrite (filter_cons_True _ y) in Hhead by done.
    injection Hhead as -> Htail. f_equal. apply IH; [done|].
    intros s. destruct (decide (key y = s)) as [<-|Hne]; [done|].
    specialize (Hsame s). by rewrite !filter_cons_False in Hsame.
Qed.

Lemma sort_desc_unique (l sorted : list A) :
  StronglySorted (desc key) sorted →
  (∀ s, filter (λ a, key a = s) sorted = filter (λ a, key a = s) l) →
  sorted = sort_desc key l.
Proof.
  intros Hsorted Hsame. apply stable_sort_unique; [done|apply sort_desc_sorted|].
  intros s. by rewrite Hsame, sort_desc_filter.
Qed.

End SortFacts.

Lemma slice_to_take {A} (k : Z) (l : list A) :
  ∃ n, slice_to k l = take n l.
Proof. unfold slice_to. destruct (0 <=? k)%Z; eauto. Qed.

Lemma slice_to_length {A} (k : Z) (l : list A) :
  (0 ≤ k)%Z → (Z.of_nat (length (slice_to k l)) ≤ k)%Z.
Proof.
  intros Hk. unfold slice_to.
  destruct (Z.leb_spec 0 k); [|lia].
  rewrite length_take. lia.
Qed.

(** ** Substrings and words *)

Section StringFacts.

Lemma startswith_prefix (s p : str) : startswith s p = true ↔ p `prefix_of` s.
Proof.
  revert s. induction p as [|a p IH]; intros s; simpl.
  - split; [intros _; apply prefix_nil|done].
  - destruct s as [|b s].
    + split; [done|]. intros [k Hk]. discriminate.
    + rewrite andb_true_iff, N.eqb_eq, IH. split.
      * intros [-> Hp]. by apply prefix_cons.
      * intros [k Hk]. injection Hk as -> ->. split; [done|]. by exists k.
Qed.

(** [contains] is substring containment. *)
Lemma contains_substring (w s : str) : contains w s = true ↔ substring w s.
Proof.
  unfold substring. induction s as [|b s IH]; simpl.
  - rewrite orb_false_r, startswith_prefix. split.
    + intros [k Hk]. by exists [], k.
    + intros (pre & post & Hs). symmetry in Hs.
      apply app_eq_nil in Hs as [-> Hs]. apply app_eq_nil in Hs as [-> ->].
      done.
  - rewrite orb_true_iff, startswith_prefix, IH. split.
    + intros [[k Hk]|(pre & post & Hs)].
      * by exists [], k.
      * exists (b :: pre), post. simpl. by rewrite Hs.
    + intros (pre & post & Hs). destruct pre as [|a pre]; simpl in Hs.
      * left. by exists post.
      * right. injection Hs as -> ->. by exists pre, post.
Qed.

(** The words of [split] are the non-empty runs of characters that are
    not whitespace. *)
Lemma split_from_words (cur s : str) :
  Forall (λ c, is_space c = false) cur →
  Forall (λ w, w ≠ [] ∧ Forall (λ c, is_space c = false) w) (split_from cur s).
Proof.
  revert cur. induction s as [|c s IH]; intros cur Hcur; simpl.
  - destruct cur as [|a cur]; [constructor|].
    constructor; [|constructor]. split.
    + simpl. intros Heq. by apply app_eq_nil in Heq as [_ ?].
    + by apply Forall_rev.
  - destruct (is_space c) eqn:Hc.
    + destruct cur as [|a cur]; [by apply IH|].
      constructor; [|by apply IH]. split.
      * simpl. intros Heq. by apply app_eq_nil in Heq as [_ ?].
      * by apply Forall_rev.
    + apply IH. by constructor.
Qed.

Lemma split_words (s : str) :
  Forall (λ w, w ≠ [] ∧ Forall (λ c, is_space c = false) w) (split s).
Proof. apply split_from_words. constructor. Qed.

End StringFacts.

(** ** C1: the search *)

Section SearchFacts.

Variable lower : str → str.
Variable query : str.

Local Abbreviation sc := (chunk_score lower query).

Lemma scored_chunks_fst (chunks : list chunk) :
  Forall (λ p, p.1 = sc p.2 ∧ 1 ≤ p.1) (scored_chunks lower query chunks).
Proof.
  unfold scored_chunks. generalize sc. intros f.
  induction chunks as [|c chunks IH]; csimpl; [constructor|].
  destruct (Nat.ltb_spec 0 (f c)); csimpl; [|done].
  constructor; [|done]. simpl. split; [done|lia].
Qed.

Lemma scored_chunks_snd (chunks : list chunk) :
  map snd (scored_chunks lower query chunks) = filter (λ c, 1 ≤ sc c) chunks.
Proof.
  unfold scored_chunks. generalize sc. intros f.
  induction chunks as [|c chunks IH]; csimpl; [done|].
  rewrite filter_cons.
  destruct (Nat.ltb_spec 0 (f c)); case_decide; csimpl; try lia; by rewrite IH.
Qed.

Lemma filter_map_snd (s : nat) (l : list (nat * chunk)) :
  Forall (λ p, p.1 = sc p.2) l →
  filter (λ c, sc c = s) (map snd l) = map snd (filter (λ p, p.1 = s) l).
Proof.
  generalize sc. intros f.
  induction 1 as [|p l Hp _ IH]; simpl; [done|].
  rewrite !filter_cons, IH.
  repeat case_decide; simpl; congruence.
Qed.

(** The score of the loop is the count the specification describes. *)
Lemma chunk_score_counts (c : chunk) :
  counts_matching_words lower query c (chunk_score lower query c).
Proof.
  unfold counts_matching_words, chunk_score, score, query_words_of, set.
  exists (List.filter (λ word, contains word (lower (content c)))
            (remove_dups (split (lower query)))).
  split; [|split; [|done]].
  - apply NoDup_ListNoDup, List.NoDup_filter, NoDup_ListNoDup, NoDup_remove_dups.
  - intros w. rewrite list_elem_of_In, filter_In, <- list_elem_of_In.
    by rewrite elem_of_remove_dups, contains_substring.
Qed.

(** C1: for every store, query and bound [top_k >= 0], the result of the
    search has at most [top_k] chunks; it holds only chunks of score at
    least 1, is sorted by non-increasing score, and keeps the chunks of
    equal score in their order of insertion (for each score, the results
    of that score are an initial segment of the stored chunks of that
    score); the score of a chunk is the number of distinct words of the
    lowercased, whitespace-split query that are substrings of its lowercased
    content. The parts on scores and order hold for every integer
    [top_k]. *)
Theorem simple_search_ranked (chunks : list chunk) (top_k : Z) :
  let result := _simple_search lower chunks query top_k in
  ((0 ≤ top_k)%Z → (Z.of_nat (length result) ≤ top_k)%Z)
  ∧ (∀ c, counts_matching_words lower query c (chunk_score lower query c))
  ∧ Forall (λ c, 1 ≤ chunk_score lower query c) result
  ∧ StronglySorted (λ a b, chunk_score lower query b ≤ chunk_score lower query a)
      result
  ∧ ∀ s, filter (λ c, chunk_score lower query c = s) result
         `prefix_of` filter (λ c, chunk_score lower query c = s) chunks.
Proof.
  intros result. subst result. unfold _simple_search.
  set (scored := scored_chunks lower query chunks).
  set (sorted := sort_desc fst scored).
  assert (Hall : Forall (λ p, p.1 = sc p.2 ∧ 1 ≤ p.1) sorted).
  { unfold sorted. rewrite sort_desc_Permutation. apply scored_chunks_fst. }
  assert (Hsorted : StronglySorted (desc fst) sorted) by apply sort_desc_sorted.
  destruct (slice_to_take top_k sorted) as [n Hn].
  split; [|split; [|split; [|split]]].
  - intros Hk. rewrite length_map. by apply slice_to_length.
  - apply chunk_score_counts.
  - rewrite Hn. rewrite Forall_map.
    apply (Forall_take _ n) in Hall.
    eapply Forall_impl; [exact Hall|]. simpl. intros p [-> ?]. done.
  - rewrite Hn.
    assert (Hpre : StronglySorted (desc fst) (take n sorted)).
    { rewrite <- (take_drop n sorted) in Hsorted.
      by apply StronglySorted_app_1_l in Hsorted. }
    apply (Forall_take _ n) in Hall. revert Hall Hpre.
    generalize (take n sorted). intros l Hall Hpre. revert Hall.
    induction Hpre as [|p l Hl IH Hp]; simpl; intros Hall; [constructor|].
    apply Forall_cons in Hall as [[Hp1 _] Hall].
    constructor; [by apply IH|].
    rewrite Forall_map. rewrite Forall_forall in Hp, Hall |- *.
    intros q Hq. simpl. destruct (Hall q Hq) as [Hq1 _].
    specialize (Hp q Hq). unfold desc in Hp. rewrite <- Hp1, <- Hq1. done.
  - intros s. rewrite Hn.
    assert (Hfst : Forall (λ p, p.1 = sc p.2) sorted).
    { eapply Forall_impl; [exact Hall|]. by intros p [? _]. }
    destruct (decide (1 ≤ s)) as [Hs|Hs].
    + transitivity (filter (λ c, sc c = s) (map snd sorted)).
      { rewrite <- (take_drop n sorted) at 2.
        rewrite map_app, filter_app. by apply prefix_app_r. }
      rewrite filter_map_snd by done.
      unfold sorted. rewrite sort_desc_filter.
      rewrite <- filter_map_snd by (eapply Forall_impl; [apply scored_chunks_fst|]; by intros p [? _]).
      unfold scored. rewrite scored_chunks_snd.
      rewrite list_filter_filter.
      erewrite (list_filter_iff _ (λ c, sc c = s)); [done|].
      intros c. simpl. lia.
    + replace (filter (λ c, sc c = s) (map snd (take n sorted))) with (@nil chunk).
      { apply prefix_nil. }
      symmetry. apply (Forall_take _ n) in Hall. revert Hall.
      generalize (take n sorted). intros l Hall.
      induction Hall as [|p l [Hp1 Hp2] _ IH]; simpl; [done|].
      rewrite filter_cons, IH. case_decide; [lia|done].
Qed.

(** The results are stored chunks. *)
Lemma simple_search_subset (chunks : list chunk) (top_k : Z) (c : chunk) :
  c ∈ _simple_search lower chunks query top_k → c ∈ chunks.
Proof.
  unfold _simple_search.
  destruct (slice_to_take top_k (sort_desc fst (scored_chunks lower query chunks)))
    as [n ->].
  intros Hc. apply list_elem_of_fmap in Hc as (p & -> & Hp).
  apply elem_of_take in Hp as (i & Hp & _).
  apply list_elem_of_lookup_2 in Hp.
  rewrite sort_desc_Permutation in Hp.
  assert (p.2 ∈ map snd (scored_chunks lower query chunks)) as Hin
    by (apply list_elem_of_fmap; eauto).
  rewrite scored_chunks_snd in Hin.
  by apply list_elem_of_filter in Hin as [_ ?].
Qed.

End SearchFacts.

(** The bound of C1 is used at [top_k = 3] on the sample store. *)
Lemma simple_search_ranked_witness :
  (Z.of_nat (length (_simple_search ascii_lower Sample.kb
                       (of_string "What are your hours") 3)) ≤ 3)%Z.
Proof.
  destruct (simple_search_ranked ascii_lower (of_string "What are your hours")
              Sample.kb 3) as [Hlen _].
  apply Hlen. lia.
Defined.

(** A bound is a count, so [top_k >= 0]. The slice [scored_chunks[:top_k]]
    is also defined below 0, where it drops the last matches instead: for
    [top_k = -1] two of the three matching chunks are returned. The only
    caller, [query], passes 3. *)
Lemma simple_search_negative_bound :
  let result :=
    _simple_search ascii_lower Sample.kb (of_string "hours shipping") (-1) in
  length result = 2 ∧ ¬ (Z.of_nat (length result) ≤ -1)%Z.
Proof. split; [reflexivity|]. vm_compute. intros H. apply H. reflexivity. Qed.

(** ** Stripping and splitting *)

Section StripFacts.

Lemma lstrip_decomp (s : str) : ∃ ws, blank ws ∧ s = ws ++ lstrip s.
Proof.
  induction s as [|c s [ws [Hws Hs]]]; simpl.
  - exists []. by split; [constructor|].
  - destruct (is_space c) eqn:Hc.
    + exists (c :: ws). split; [by constructor|]. simpl. by rewrite <- Hs.
    + exists []. by split; [constructor|].
Qed.

Lemma lstrip_length (s : str) : length (lstrip s) ≤ length s.
Proof.
  destruct (lstrip_decomp s) as [ws [_ Hs]].
  rewrite Hs at 2. rewrite length_app. lia.
Qed.

Lemma lstrip_fixed (c : N) (s : str) :
  lstrip (c :: s) = c :: s ↔ is_space c = false.
Proof.
  simpl. destruct (is_space c); split; try done.
  intros Hs. pose proof (lstrip_length s) as Hlen.
  rewrite Hs in Hlen. simpl in Hlen. lia.
Qed.

Lemma lstrip_blank_app (ws s : str) : blank ws → lstrip (ws ++ s) = lstrip s.
Proof. induction 1 as [|c ws Hc _ IH]; simpl; [done|]. by rewrite Hc. Qed.

Lemma lstrip_blank (ws : str) : blank ws → lstrip ws = [].
Proof.
  intros Hws. rewrite <- (app_nil_r ws). by rewrite lstrip_blank_app.
Qed.

Lemma lstrip_idemp (s : str) : lstrip (lstrip s) = lstrip s.
Proof.
  induction s as [|c s IH]; simpl; [done|].
  destruct (is_space c) eqn:Hc; [done|]. simpl. by rewrite Hc.
Qed.

Lemma lstrip_app_fixed (s t : str) : s ≠ [] → lstrip s = s → lstrip (s ++ t) = s ++ t.
Proof.
  destruct s as [|c s]; [done|]. intros _ Hs.
  apply lstrip_fixed in Hs. simpl. by rewrite Hs.
Qed.

Lemma blank_rev (ws : str) : blank ws → blank (rev ws).
Proof. apply Forall_rev. Qed.

Lemma elem_of_rev (x : N) (s : str) : x ∈ s → x ∈ rev s.
Proof. rewrite !list_elem_of_In. apply in_rev. Qed.

Lemma rstrip_decomp (s : str) : ∃ ws, blank ws ∧ s = rstrip s ++ ws.
Proof.
  destruct (lstrip_decomp (rev s)) as [ws [Hws Hs]].
  exists (rev ws). split; [by apply blank_rev|].
  unfold rstrip. rewrite <- rev_app_distr, <- Hs. by rewrite rev_involutive.
Qed.

Lemma strip_stripped (s : str) : stripped (strip s).
Proof.
  unfold stripped, strip. split.
  - destruct (rstrip_decomp (lstrip s)) as [ws [Hws Hs]].
    destruct (rstrip (lstrip s)) as [|c p] eqn:Hp; [done|].
    apply lstrip_fixed.
    pose proof (lstrip_idemp s) as Hid. rewrite Hs in Hid.
    simpl in Hid. destruct (is_space c) eqn:Hc; [|done].
    pose proof (lstrip_length (p ++ ws)) as Hlen.
    rewrite Hid in Hlen. simpl in Hlen. lia.
  - unfold rstrip. rewrite rev_involutive. apply lstrip_idemp.
Qed.

(** Trailing whitespace added to a stripped string is stripped again. *)
Lemma strip_app_blank (t ws : str) : stripped t → blank ws → strip (t ++ ws) = t.
Proof.
  intros [Hl Hr] Hws. unfold strip, rstrip.
  destruct (decide (t = [])) as [->|Hne].
  - simpl. rewrite (lstrip_blank ws) by done. done.
  - rewrite lstrip_app_fixed by done.
    rewrite rev_app_distr, lstrip_blank_app by (by apply blank_rev).
    by rewrite Hr, rev_involutive.
Qed.

Lemma strip_fixed (t : str) : stripped t → strip t = t.
Proof.
  intros Ht. rewrite <- (app_nil_r t) at 1.
  apply strip_app_blank; [done|constructor].
Qed.

Lemma strip_blank (ws : str) : blank ws → strip ws = [].
Proof.
  intros Hws. unfold strip. by rewrite (lstrip_blank ws).
Qed.

Lemma strip_nil_blank (s : str) : strip s = [] → blank s.
Proof.
  unfold strip. intros Hs.
  destruct (rstrip_decomp (lstrip s)) as [ws [Hws Hl]].
  rewrite Hs in Hl. simpl in Hl.
  destruct (lstrip_decomp s) as [ws' [Hws' Hs']].
  rewrite Hs', Hl. by apply Forall_app.
Qed.

End StripFacts.

Section SplitFacts.

Lemma re_split_blank_line_free (cur s : str) :
  blank_line_free s → re_split_from false cur s = [rev cur ++ s].
Proof.
  unfold blank_line_free. revert cur.
  induction s as [|c s IH]; intros cur Hs; simpl.
  - by rewrite app_nil_r.
  - simpl in Hs. apply orb_false_elim in Hs as [Hhd Htl].
    assert (Hrec : re_split_from false (c :: cur) s = [rev cur ++ c :: s]).
    { rewrite IH by done. simpl. by rewrite <- app_assoc. }
    destruct (N.eqb_spec c newline) as [->|Hc]; [|done].
    destruct s as [|c' s]; [done|].
    destruct (N.eqb_spec c' newline) as [->|Hc']; [|done].
    by cbv in Hhd.
Qed.

Lemma re_split_blank (insep : bool) (cur s : str) :
  blank cur → blank s → Forall blank (re_split_from insep cur s).
Proof.
  intros Hcur Hs. revert insep cur Hcur.
  induction Hs as [|c s Hc _ IH]; intros insep cur Hcur; simpl.
  - repeat constructor. by apply blank_rev.
  - assert (blank (c :: cur)) by by constructor.
    assert (blank (rev cur)) by by apply blank_rev.
    destruct (c =? newline)%N; [|by apply IH].
    destruct insep; [by apply IH|].
    destruct s as [|c' s]; [by apply IH|].
    destruct (c' =? newline)%N; [|by apply IH].
    constructor; [done|]. apply IH. constructor.
Qed.

(** Every character that is not a newline lands in some piece. *)
Lemma re_split_cover (insep : bool) (cur s : str) (x : N) :
  x ≠ newline → x ∈ cur ∨ x ∈ s →
  ∃ p, p ∈ re_split_from insep cur s ∧ x ∈ p.
Proof.
  intros Hx. revert insep cur.
  induction s as [|c s IH]; intros insep cur Hin; simpl.
  - destruct Hin as [Hin|Hin]; [|by apply elem_of_nil in Hin].
    exists (rev cur). split; [by apply list_elem_of_singleton|].
    by apply elem_of_rev.
  - assert (Hpush : x ∈ c :: cur ∨ x ∈ s).
    { destruct Hin as [Hin|Hin]; [left; by right|].
      apply elem_of_cons in Hin as [->|Hin]; [left; by left|by right]. }
    destruct (N.eqb_spec c newline) as [->|Hc]; [|by apply IH].
    destruct insep.
    { apply IH. destruct Hin as [Hin|Hin]; [by left|].
      apply elem_of_cons in Hin as [->|Hin]; [done|by right]. }
    destruct s as [|c' s]; [by apply IH|].
    destruct (N.eqb_spec c' newline) as [->|Hc']; [|by apply IH].
    destruct Hin as [Hin|Hin].
    + exists (rev cur). split; [by left|].
      by apply elem_of_rev.
    + apply elem_of_cons in Hin as [->|Hin]; [done|].
      destruct (IH true [] (or_intror Hin)) as [p [Hp Hxp]].
      exists p. split; [by right|done].
Qed.

End SplitFacts.

(** ** C3: chunking *)

Section ChunkingFacts.

Variable chunk_size : Z.

Lemma split_text_step_blank (st : list str * str) (p : str) :
  blank p → split_text_step chunk_size st p = st.
Proof.
  intros Hp. unfold split_text_step. destruct st as [chunks current].
  by rewrite (strip_blank p).
Qed.

Lemma split_text_step_current (st : list str * str) (p : str) :
  st.2 ≠ [] ∨ ¬ blank p → (split_text_step chunk_size st p).2 ≠ [].
Proof.
  unfold split_text_step. destruct st as [chunks current]. simpl.
  destruct (strip p) as [|c t] eqn:Hp.
  - intros [?|Hnb]; [done|]. destruct Hnb. by apply strip_nil_blank.
  - intros _. destruct (_ <? _)%Z; simpl.
    + intros Heq. apply app_eq_nil in Heq as [_ Heq]. done.
    + done.
Qed.

Lemma foldl_split_text_step_blank (st : list str * str) (ps : list str) :
  Forall blank ps → foldl (split_text_step chunk_size) st ps = st.
Proof.
  intros Hps. revert st.
  induction Hps as [|p ps Hp _ IH]; intros st; simpl; [done|].
  by rewrite split_text_step_blank.
Qed.

Lemma foldl_split_text_step_current (st : list str * str) (ps : list str) :
  st.2 ≠ [] ∨ Exists (λ p, ¬ blank p) ps →
  (foldl (split_text_step chunk_size) st ps).2 ≠ [].
Proof.
  revert st. induction ps as [|p ps IH]; intros st Hst; simpl.
  - destruct Hst as [?|Hex]; [done|]. by apply Exists_nil in Hex.
  - apply IH. destruct Hst as [Hst|Hex].
    + left. apply split_text_step_current. by left.
    + apply Exists_cons in Hex as [Hp|Hex]; [|by right].
      left. apply split_text_step_current. by right.
Qed.

(** The loop yields no chunk exactly when the text is only whitespace. *)
Lemma split_text_chunks_nil (text : str) :
  split_text_chunks text chunk_size = [] ↔ blank text.
Proof.
  unfold split_text_chunks. split.
  - intros Hnil.
    destruct (decide (blank text)) as [|Hnb]; [done|]. exfalso.
    apply not_Forall_Exists in Hnb; [|apply _].
    apply Exists_exists in Hnb as [x [Hx Hsp]].
    assert (Hnl : x ≠ newline) by (intros ->; by apply Hsp).
    destruct (re_split_cover false [] text x Hnl (or_intror Hx)) as [p [Hp Hxp]].
    pose proof (foldl_split_text_step_current ([], []) (re_split_blank_lines text))
      as Hcur.
    destruct (foldl _ _ _) as [chunks current].
    simpl in Hcur. destruct current as [|c t].
    + apply Hcur; [|done]. right. apply Exists_exists. exists p. split; [done|].
      intros Hb. apply Hsp. unfold blank in Hb. rewrite Forall_forall in Hb.
      by apply Hb.
    + by apply app_eq_nil in Hnil as [_ ?].
  - intros Hb.
    rewrite foldl_split_text_step_blank; [done|].
    apply re_split_blank; [constructor|done].
Qed.

Lemma split_text_one_paragraph (text : str) (overlap : Z) :
  blank_line_free text → strip text ≠ [] →
  _split_text text chunk_size overlap = [strip text].
Proof.
  intros Hfree Hne. unfold _split_text, split_text_chunks, re_split_blank_lines.
  rewrite re_split_blank_line_free by done. simpl.
  destruct (strip text) as [|c t] eqn:Ht; [done|]. rewrite <- Ht.
  assert (Hfinal : strip (strip text ++ [newline; newline]) = strip text).
  { apply strip_app_blank; [apply strip_stripped|]. by repeat constructor. }
  destruct (_ <? _)%Z;
    (destruct (strip text ++ [newline; newline]) as [|c' t'] eqn:Hcur;
     [by apply app_eq_nil in Hcur as [_ ?]|]);
    simpl; by rewrite Hfinal.
Qed.

(** When the loop yields no chunk, which happens exactly for a text made of
    whitespace only, the whole text is the single chunk; a text with no
    blank-line break yields exactly one chunk: the text stripped of its
    leading and trailing whitespace when that is not empty (so the whole
    input when it has no such whitespace), and the whole text otherwise. *)
Lemma split_text_blank_or_one_paragraph (text : str) (overlap : Z) :
  (split_text_chunks text chunk_size = [] ↔ blank text)
  ∧ (blank text → _split_text text chunk_size overlap = [text])
  ∧ (blank_line_free text → (Z.of_nat (length text) < chunk_size)%Z →
     _split_text text chunk_size overlap =
       [match strip text with [] => text | _ :: _ => strip text end]
     ∧ (stripped text → _split_text text chunk_size overlap = [text])).
Proof.
  split; [apply split_text_chunks_nil|]. split.
  - intros Hb. unfold _split_text.
    by rewrite (proj2 (split_text_chunks_nil text) Hb).
  - intros Hfree _.
    assert (Hone : _split_text text chunk_size overlap =
              [match strip text with [] => text | _ :: _ => strip text end]).
    { destruct (strip text) as [|c t] eqn:Ht.
      - unfold _split_text.
        rewrite (proj2 (split_text_chunks_nil text)); [done|].
        by apply strip_nil_blank.
      - rewrite <- Ht. apply split_text_one_paragraph; [done|]. by rewrite Ht. }
    split; [done|].
    intros Hst. rewrite Hone, (strip_fixed text Hst).
    by destruct text.
Qed.

End ChunkingFacts.

(** C3 as stated fails on a one-line text that ends with a newline, as text
    files do: the chunk is the line without the newline, not the whole
    input. *)
Lemma split_text_trailing_newline :
  let text := of_string "Q: What are your hours? A: 24/7." ++ [newline] in
  blank_line_free text
  ∧ (Z.of_nat (length text) < 800)%Z
  ∧ _split_text text 800 150 = [of_string "Q: What are your hours? A: 24/7."]
  ∧ _split_text text 800 150 ≠ [text].
Proof. repeat split; try reflexivity. vm_compute. discriminate. Qed.

(** ** Running computations *)

(** Unfolding of the monad's operations, for proofs by evaluation. *)
Ltac run_unfold :=
  unfold bind, ret, raise, try_except, emit, get_world, lift,
    set_active_connections, set_session_metadata in *.

Ltac run := run_unfold; simpl in *.

(** ** C8: the session registry *)

Section RegistryFacts.

Lemma disconnect_run (session_id : str) (w : world) :
  disconnect session_id w
  = (Return tt, World (delete session_id (active_connections w))
                      (delete session_id (session_metadata w))
                      (trace w)).
Proof.
  destruct w as [ac md tr]. unfold disconnect, dict_del. run.
  destruct (ac !! session_id) eqn:Hac; destruct (md !! session_id) eqn:Hmd.
  all: repeat (case_decide as Hd; simpl;
               try (destruct Hd; eauto; fail);
               try (by destruct Hd as [? ?])).
  all: rewrite ?Hac, ?Hmd; simpl.
  all: rewrite ?(delete_id ac) by done; rewrite ?(delete_id md) by done; done.
Qed.

(** C8: [disconnect] never raises; on an id that is in neither table it
    changes nothing; a second [disconnect] of the same id changes nothing;
    and the entries of every other session (transport handle, language,
    message count) are as before. *)
Theorem disconnect_idempotent (session_id : str) (w : world) :
  (∃ w', disconnect session_id w = (Return tt, w')
         ∧ disconnect session_id w' = (Return tt, w')
         ∧ ∀ other, other ≠ session_id →
             active_connections w' !! other = active_connections w !! other
             ∧ session_metadata w' !! other = session_metadata w !! other)
  ∧ (active_connections w !! session_id = None →
     session_metadata w !! session_id = None →
     disconnect session_id w = (Return tt, w)).
Proof.
  split.
  - eexists. split; [apply disconnect_run|]. split.
    + rewrite disconnect_run. simpl. by rewrite !delete_delete_eq.
    + intros other Hne. simpl. by rewrite !lookup_delete_ne.
  - intros Hac Hmd. rewrite disconnect_run.
    rewrite !delete_id by done. by destruct w.
Qed.

End RegistryFacts.

(** An unknown id on the sample registry. *)
Lemma disconnect_idempotent_witness :
  disconnect (of_string "session-z") Sample.two_sessions
  = (Return tt, Sample.two_sessions).
Proof. apply disconnect_idempotent; reflexivity. Defined.

(** ** Sending frames *)

Section SendFacts.

Variable E : environment.

Lemma send_message_run (session_id : str) (frame : dict) (w : world) :
  send_message E session_id frame w
  = (Return tt, World (active_connections w) (session_metadata w)
                      (trace w ++ sent w session_id frame)).
Proof.
  destruct w as [ac md tr]. unfold send_message, send, sent. run.
  destruct (ac !! session_id) as [ws|]; simpl.
  - by destruct (websocket_send E ws frame).
  - by rewrite app_nil_r.
Qed.

Lemma send_error_run (session_id error_message : str) (w : world) :
  _send_error E session_id error_message w
  = (Return tt, World (active_connections w) (session_metadata w)
                      (trace w ++ sent w session_id (error_frame E error_message))).
Proof. apply send_message_run. Qed.

End SendFacts.

(** ** C4 and C5: rejected frames *)

Section RejectionFacts.

Variable E : environment.
Variable config : Config.
Variable chunks : list chunk.

(** C4: on a connected session, a text frame whose content is empty (or
    only whitespace) is answered by the error frame "Empty message" and
    nothing else happens: the session tables, hence the message counter,
    are unchanged and the trace gains this one send, so no call to the
    retrieval engine or to the generation backend. *)
Theorem handle_text_empty_content
    (session_id : str) (message : dict) (s : str) (ws : handle) (w : world) :
  default (JStr []) (dict_get message (of_string "content")) = JStr s →
  strip s = [] →
  active_connections w !! session_id = Some ws →
  _handle_text_message E config chunks session_id message w
  = (Return tt,
     World (active_connections w) (session_metadata w)
           (trace w ++ [EvSend ws (error_frame E (of_string "Empty message"))])).
Proof.
  intros Hcontent Hs Hws. unfold _handle_text_message.
  rewrite Hcontent. unfold strip_value, bind at 1, ret at 1.
  rewrite Hs, send_error_run. unfold sent. by rewrite Hws.
Qed.

(** C5: on a connected session, a language frame with a supported code
    stores the code as the session's language and sends one frame, the
    acknowledgement: its type is "system", its language is the code and its
    message is "Language changed to " followed by the code. With an
    unsupported code the one frame sent is an error frame, of type "error"
    and message "Unsupported language", and the session tables, hence the
    session's language, are unchanged. *)
Theorem handle_language_change_supported_or_not
    (session_id : str) (message : dict) (code : str)
    (ws : handle) (s : session) (w : world) :
  dict_get message (of_string "language") = Some (JStr code) →
  active_connections w !! session_id = Some ws →
  session_metadata w !! session_id = Some s →
  (code ∈ languages config →
   ∃ w' frame,
     _handle_language_change E config session_id message w = (Return tt, w')
     ∧ get_session_language session_id w' = (Return code, w')
     ∧ session_metadata w'
       = <[session_id := Session (connected_at s) code (message_count s)]>
           (session_metadata w)
     ∧ active_connections w' = active_connections w
     ∧ trace w' = trace w ++ [EvSend ws frame]
     ∧ frame = language_changed_frame code
     ∧ dict_get frame (of_string "type") = Some (JStr (of_string "system"))
     ∧ dict_get frame (of_string "language") = Some (JStr code)
     ∧ dict_get frame (of_string "message")
       = Some (JStr (of_string "Language changed to " ++ code)))
  ∧ (code ∉ languages config →
     ∃ frame,
       _handle_language_change E config session_id message w
       = (Return tt,
          World (active_connections w) (session_metadata w)
                (trace w ++ [EvSend ws frame]))
       ∧ frame = error_frame E (of_string "Unsupported language")
       ∧ dict_get frame (of_string "type") = Some (JStr (of_string "error"))
       ∧ dict_get frame (of_string "message")
         = Some (JStr (of_string "Unsupported language"))
       ∧ get_session_language session_id w = (Return (language s), w)).
Proof.
  intros Hcode Hws Hs. unfold _handle_language_change. rewrite Hcode. simpl.
  split; intros Hin; case_decide; try done.
  - unfold set_session_language, bind at 1 2, get_world at 1. rewrite Hs.
    unfold set_session_metadata at 1. rewrite send_message_run.
    unfold sent. simpl. rewrite Hws.
    eexists _, _. split; [done|]. simpl.
    split; [unfold get_session_language; run; by rewrite lookup_insert_eq|].
    split; [done|]. split; [done|]. split; [done|]. split; [done|].
    unfold language_changed_frame. generalize code. intros c. by vm_compute.
  - rewrite send_error_run. unfold sent. rewrite Hws.
    eexists. split; [done|]. split; [done|].
    split; [|split].
    + unfold error_frame. generalize (now_isoformat E). intros now. by vm_compute.
    + unfold error_frame. generalize (now_isoformat E). intros now. by vm_compute.
    + unfold get_session_language. run. by rewrite Hs.
Qed.

End RejectionFacts.

(** A whitespace-only text frame on a connected session of the sample
    registry. *)
Lemma handle_text_empty_content_witness :
  _handle_text_message Sample.env default_config Sample.kb Sample.alice
    [(of_string "content", JStr (of_string "   "))] Sample.two_sessions
  = (Return tt,
     World (active_connections Sample.two_sessions)
           (session_metadata Sample.two_sessions)
           (trace Sample.two_sessions
            ++ [EvSend 1 (error_frame Sample.env (of_string "Empty message"))])).
Proof.
  apply (handle_text_empty_content Sample.env default_config Sample.kb Sample.alice
           [(of_string "content", JStr (of_string "   "))] (of_string "   ") 1
           Sample.two_sessions).
  - reflexivity.
  - reflexivity.
  - reflexivity.
Defined.

(** The session of the sample registry that speaks English switches to
    French. *)
Lemma handle_language_change_witness :
  ∃ w' frame,
    _handle_language_change Sample.env default_config Sample.alice
      [(of_string "language", JStr (of_string "fr"))] Sample.two_sessions
    = (Return tt, w')
    ∧ get_session_language Sample.alice w' = (Return (of_string "fr"), w')
    ∧ trace w' = trace Sample.two_sessions ++ [EvSend 1 frame]
    ∧ dict_get frame (of_string "type") = Some (JStr (of_string "system"))
    ∧ dict_get frame (of_string "language") = Some (JStr (of_string "fr")).
Proof.
  destruct (handle_language_change_supported_or_not Sample.env default_config
              Sample.alice [(of_string "language", JStr (of_string "fr"))]
              (of_string "fr") 1
              (Session (of_string "2024-05-01T11:58:00") (of_string "en") 0)
              Sample.two_sessions)
    as [Hsupported _].
  - reflexivity.
  - reflexivity.
  - reflexivity.
  - destruct Hsupported
      as (w' & frame & Hrun & Hlang & _ & _ & Htrace & _ & Htype & Hcode & _).
    + apply (bool_decide_unpack _). by vm_compute.
    + by exists w', frame.
Defined.

(** ** C2 and C6: answering never raises *)

Section EngineFacts.

Variable E : environment.
Variable config : Config.
Variable chunks : list chunk.

(** What the backend call and the reading of its response give together:
    the answer text, or the exception of whichever step fails. *)
Lemma generate_run (req : generate_request) (w : world) :
  bind (generate E req) (λ response, lift (response_text response)) w
  = (match ollama_generate E req with
     | inl e => Raise e
     | inr response =>
         match response_text response with
         | inl e => Raise e
         | inr text => Return text
         end
     end,
     World (active_connections w) (session_metadata w)
           (trace w ++ [EvGenerate req])).
Proof.
  unfold generate. run.
  destruct (ollama_generate E req) as [e|response]; simpl; [done|].
  by destruct (response_text response).
Qed.

Lemma get_direct_answer_run (question : str) (w : world) :
  _get_direct_answer E config question w
  = (Return (match ollama_generate E (direct_request config question) with
             | inl _ => apology
             | inr response =>
                 match response_text response with
                 | inl _ => apology
                 | inr text => text
                 end
             end),
     World (active_connections w) (session_metadata w)
           (trace w ++ [EvGenerate (direct_request config question)])).
Proof.
  unfold _get_direct_answer, try_except. rewrite generate_run.
  destruct (ollama_generate E _) as [e|response]; [done|].
  by destruct (response_text response).
Qed.

Lemma fallback_unrecognized (code : str) :
  code ∉ [of_string "en"; of_string "es"; of_string "fr"] →
  _get_fallback_response code = fallback_en.
Proof.
  intros Hcode. unfold _get_fallback_response.
  rewrite !lookup_insert_ne, lookup_empty; [done|..];
    intros <-; apply Hcode; set_solver.
Qed.



End EngineFacts.



(** ** A logic of emitted events *)

Section EmitsRules.

Context (P : event → Prop).

Lemma emits_ret {A} (Q : A → Prop) (a : A) : Q a → emits P Q (ret a).
Proof. intros Ha w. exists []. simpl. by rewrite app_nil_r. Qed.

Lemma emits_raise {A} (Q : A → Prop) (e : exn) : emits P Q (raise e).
Proof. intros w. exists []. simpl. by rewrite app_nil_r. Qed.

Lemma emits_bind {A B} (Q : A → Prop) (R : B → Prop) (m : M A) (k : A → M B) :
  emits P Q m → (∀ a, Q a → emits P R (k a)) → emits P R (bind m k).
Proof.
  intros Hm Hk w. unfold bind.
  destruct (Hm w) as (evs & Htr & Hevs & Hq).
  destruct (m w) as [[a|e] w1]; simpl in *.
  - destruct (Hk a Hq w1) as (evs' & Htr' & Hevs' & Hr).
    exists (evs ++ evs'). rewrite Htr', Htr, app_assoc.
    split; [done|]. split; [by apply Forall_app|done].
  - by exists evs.
Qed.

Lemma emits_try_except {A} (Q : A → Prop) (m : M A) (h : exn → M A) :
  emits P Q m → (∀ e, emits P Q (h e)) → emits P Q (try_except m h).
Proof.
  intros Hm Hh w. unfold try_except.
  destruct (Hm w) as (evs & Htr & Hevs & Hq).
  destruct (m w) as [[a|e] w1]; simpl in *.
  - by exists evs.
  - destruct (Hh e w1) as (evs' & Htr' & Hevs' & Hr).
    exists (evs ++ evs'). rewrite Htr', Htr, app_assoc.
    split; [done|]. split; [by apply Forall_app|done].
Qed.

Lemma emits_weaken {A} (Q Q' : A → Prop) (m : M A) :
  (∀ a, Q a → Q' a) → emits P Q m → emits P Q' m.
Proof.
  intros HQ Hm w. destruct (Hm w) as (evs & Htr & Hevs & Hq).
  exists evs. split; [done|]. split; [done|].
  destruct (m w).1; [by apply HQ|done].
Qed.

Lemma emits_emit (ev : event) : P ev → emits P (λ _, True) (emit ev).
Proof. intros Hev w. exists [ev]. simpl. by repeat constructor. Qed.

Lemma emits_get_world : emits P (λ _, True) get_world.
Proof. intros w. exists []. simpl. by rewrite app_nil_r. Qed.

Lemma emits_set_session_metadata (md : gmap str session) :
  emits P (λ _, True) (set_session_metadata md).
Proof. intros w. exists []. simpl. by rewrite app_nil_r. Qed.

Lemma emits_lift {A} (r : exn + A) : emits P (λ _, True) (lift r).
Proof. destruct r; [apply emits_raise|by apply emits_ret]. Qed.

Lemma emits_send_message (E : environment) (session_id : str) (frame : dict) :
  (∀ ws, P (EvSend ws frame)) →
  emits P (λ _, True) (send_message E session_id frame).
Proof.
  intros Hframe w. rewrite send_message_run. simpl.
  eexists. split; [done|]. split; [|done].
  unfold sent. destruct (_ !! _); by repeat constructor.
Qed.

Lemma emits_get_session_language (session_id : str) :
  emits P (λ _, True) (get_session_language session_id).
Proof. intros w. exists []. simpl. by rewrite app_nil_r. Qed.

Lemma emits_set_session_language (session_id lang : str) :
  emits P (λ _, True) (set_session_language session_id lang).
Proof.
  intros w. exists []. unfold set_session_language. run.
  destruct (_ !! _); simpl; by rewrite app_nil_r.
Qed.

Lemma emits_increment_message_count (session_id : str) :
  emits P (λ _, True) (increment_message_count session_id).
Proof.
  intros w. exists []. unfold increment_message_count. run.
  destruct (_ !! _); simpl; by rewrite app_nil_r.
Qed.

End EmitsRules.

(** ** C7: the response frame *)

Section ResponseFacts.

Variable E : environment.
Variable config : Config.
Variable chunks : list chunk.

Lemma dict_get_single (key : str) (v : json) : dict_get [(key, v)] key = Some v.
Proof. simpl. by rewrite decide_True. Qed.

Lemma source_record_of_chunk (doc : Document) :
  doc_of_chunk chunks doc → excerpt_of_chunk chunks (source_record doc).
Proof.
  intros (c & Hc & Hcontent & Hmeta). exists c. split; [done|].
  unfold source_record. rewrite Hmeta, Hcontent, dict_get_single. done.
Qed.

(** The frame built for any answer and any sources taken from the store. *)
Lemma text_response_ok (answer : str) (sources : list Document) :
  Forall (doc_of_chunk chunks) sources →
  text_frame_ok chunks (text_response E answer sources).
Proof.
  intros Hsources _. exists (map source_record (slice_to 2 sources)).
  split.
  { unfold text_response.
    generalize (map source_record (slice_to 2 sources)) (now_isoformat E)
      (processing_time_ms E).
    intros records now elapsed. by vm_compute. }
  split.
  - rewrite length_map. unfold slice_to. simpl. rewrite length_take. lia.
  - rewrite Forall_map. unfold slice_to. simpl.
    apply Forall_take. eapply Forall_impl; [exact Hsources|].
    apply source_record_of_chunk.
Qed.

(** [query] sends nothing, and its sources are built from stored chunks. *)
Lemma query_emits (P : event → Prop) (question lang : str) :
  (∀ ev, is_send ev = false → P ev) →
  emits P (λ r, Forall (doc_of_chunk chunks) r.2)
        (query E config chunks question lang).
Proof.
  intros HP. unfold query, query_body, _get_direct_answer, generate.
  eapply emits_bind; [by apply emits_emit, HP|]. intros _ _.
  apply emits_try_except; [|intros e; by apply emits_ret].
  destruct (_simple_search _ _ _ _) as [|c relevant] eqn:Hsearch.
  - eapply (emits_bind _ (λ _, True)); [|intros a _; by apply emits_ret].
    apply emits_try_except; [|intros e; by apply emits_ret].
    eapply emits_bind; [|intros a _; apply emits_lift].
    eapply emits_bind; [by apply emits_emit, HP|]. intros _ _. apply emits_lift.
  - eapply emits_bind.
    { eapply emits_bind; [by apply emits_emit, HP|]. intros _ _. apply emits_lift. }
    intros response _.
    eapply emits_bind; [apply emits_lift|]. intros answer _.
    apply emits_ret. rewrite <- Hsearch. cbn [snd]. rewrite Forall_map.
    apply Forall_forall. intros c' Hc'. exists c'.
    split; [|done]. by eapply simple_search_subset.
Qed.

(** Every frame [_handle_text_message] sends is one of three kinds. *)
Lemma handle_text_emits (P : event → Prop) (session_id : str) (message : dict) :
  (∀ ev, is_send ev = false → P ev) →
  (∀ ws, P (EvSend ws (error_frame E (of_string "Empty message")))) →
  (∀ ws b, P (EvSend ws (typing_frame b))) →
  (∀ ws answer sources,
     Forall (doc_of_chunk chunks) sources →
     P (EvSend ws (text_response E answer sources))) →
  emits P (λ _, True) (_handle_text_message E config chunks session_id message).
Proof.
  intros Hother Hempty Htyping Htext. unfold _handle_text_message.
  eapply (emits_bind _ (λ _, True)).
  { unfold strip_value. destruct (default _ _);
      first [apply emits_raise | by apply emits_ret]. }
  intros [|c s] _; [by apply emits_send_message|].
  eapply emits_bind; [apply emits_get_session_language|]. intros lang _.
  eapply emits_bind; [by apply emits_send_message|]. intros _ _.
  eapply emits_bind; [by apply query_emits|]. intros [answer sources] Hsources.
  eapply emits_bind; [by apply emits_send_message|]. intros _ _.
  eapply emits_bind; [apply emits_send_message; intros ws; by apply Htext|].
  intros _ _.
  eapply (emits_bind _ (λ _, True));
    [|intros _ _; apply emits_increment_message_count].
  unfold log_user_interaction.
  eapply emits_bind; [by apply emits_emit, Hother|]. intros _ _.
  destruct (write_interaction _ _ _ _ _); [apply emits_raise|by apply emits_ret].
Qed.

(** [query] returns, leaves the session tables alone and extends the
    trace. *)
Lemma query_run_shape (question lang : str) (w : world) :
  ∃ r evs, query E config chunks question lang w
           = (Return r, World (active_connections w) (session_metadata w)
                              (trace w ++ evs)).
Proof.
  unfold query, query_body, _get_direct_answer, generate.
  destruct (_simple_search _ _ _ _) as [|c relevant]; run.
  all: destruct (ollama_generate E _) as [e|response]; simpl;
    [|destruct (response_text response); simpl];
    rewrite <- ?app_assoc; by eexists _, _.
Qed.

(** On a connected session a text frame with content is answered by the
    typing indicator, the response frame and the end of the indicator, in
    this order around the events of [query]. *)
Lemma handle_text_sends_response
    (session_id : str) (message : dict) (s : str) (ws : handle) (w : world) :
  active_connections w !! session_id = Some ws →
  dict_get message (of_string "content") = Some (JStr s) →
  strip s ≠ [] →
  ∃ answer sources evs lang,
    trace (_handle_text_message E config chunks session_id message w).2
    = trace w ++ [EvSend ws (typing_frame true)] ++ evs
      ++ [EvSend ws (typing_frame false);
          EvSend ws (text_response E answer sources);
          EvInteraction session_id (strip s) answer lang].
Proof.
  intros Hws Hcontent Hs. unfold _handle_text_message.
  rewrite Hcontent. simpl. unfold bind at 1, ret at 1.
  destruct (strip s) as [|c t] eqn:Hstrip; [done|].
  unfold bind at 1, get_session_language at 1, bind at 1, get_world at 1, ret at 1.
  unfold _send_typing_indicator, bind at 1. rewrite send_message_run.
  unfold bind at 1.
  match goal with
  | |- context [query E config chunks ?q ?l ?w1] =>
      destruct (query_run_shape q l w1) as ([answer sources] & evs & ->)
  end.
  unfold bind at 1. rewrite send_message_run.
  unfold bind at 1. rewrite send_message_run.
  unfold sent. simpl. rewrite Hws.
  exists answer, sources, evs,
    (match session_metadata w !! session_id with
     | Some s0 => language s0
     | None => of_string "en"
     end).
  unfold log_user_interaction, increment_message_count. run.
  destruct (write_interaction _ _ _ _ _); simpl.
  - rewrite <- !app_assoc. simpl. reflexivity.
  - destruct (session_metadata w !! session_id); simpl;
      rewrite <- !app_assoc; simpl; reflexivity.
Qed.

(** The source documents [query] returns when the search finds chunks and
    the backend answers. *)
Lemma query_grounded_run
    (question lang : str) (relevant : list chunk) (response : dict) (text : str)
    (w : world) :
  _simple_search (str_lower E) chunks question 3 = relevant →
  relevant ≠ [] →
  ollama_generate E (grounded_request config relevant question) = inr response →
  response_text response = inr text →
  query E config chunks question lang w
  = (Return (text,
             map (λ c, {| page_content := content c;
                          metadata := [(of_string "source", JStr (source c))] |})
                 relevant),
     World (active_connections w) (session_metadata w)
           (trace w ++ [EvQuery question lang;
                        EvGenerate (grounded_request config relevant question)])).
Proof.
  intros Hsearch Hne Hgen Htext.
  unfold query, query_body, generate. rewrite Hsearch.
  destruct relevant as [|c relevant]; [done|]. run.
  rewrite Hgen. simpl. rewrite Htext. simpl. by rewrite <- app_assoc.
Qed.

(** The events of a text frame whose query succeeds on the grounded path. *)
Lemma handle_text_grounded_trace
    (session_id : str) (message : dict) (s : str) (ws : handle)
    (relevant : list chunk) (response : dict) (text : str) (w : world) :
  active_connections w !! session_id = Some ws →
  dict_get message (of_string "content") = Some (JStr s) →
  strip s ≠ [] →
  _simple_search (str_lower E) chunks (strip s) 3 = relevant →
  relevant ≠ [] →
  ollama_generate E (grounded_request config relevant (strip s)) = inr response →
  response_text response = inr text →
  ∃ lang,
    trace (_handle_text_message E config chunks session_id message w).2
    = trace w
      ++ [EvSend ws (typing_frame true);
          EvQuery (strip s) lang;
          EvGenerate (grounded_request config relevant (strip s));
          EvSend ws (typing_frame false);
          EvSend ws (text_response E text
                       (map (λ c, {| page_content := content c;
                                     metadata := [(of_string "source",
                                                   JStr (source c))] |})
                            relevant));
          EvInteraction session_id (strip s) text lang].
Proof.
  intros Hws Hcontent Hs Hsearch Hne Hgen Htext. unfold _handle_text_message.
  rewrite Hcontent. simpl. unfold bind at 1, ret at 1.
  destruct (strip s) as [|c t] eqn:Hstrip; [done|]. rewrite <- Hstrip in *.
  unfold bind at 1, get_session_language at 1, bind at 1, get_world at 1, ret at 1.
  unfold _send_typing_indicator, bind at 1. rewrite send_message_run.
  unfold bind at 1.
  erewrite query_grounded_run by done.
  unfold bind at 1. rewrite send_message_run.
  unfold bind at 1. rewrite send_message_run.
  unfold sent. simpl. rewrite Hws.
  exists (match session_metadata w !! session_id with
          | Some s0 => language s0
          | None => of_string "en"
          end).
  unfold log_user_interaction, increment_message_count. run.
  destruct (write_interaction _ _ _ _ _); simpl.
  - rewrite <- !app_assoc. simpl. reflexivity.
  - destruct (session_metadata w !! session_id); simpl;
      rewrite <- !app_assoc; simpl; reflexivity.
Qed.

(** The record built for the source document of a chunk. *)
Lemma source_record_chunk (c : chunk) :
  source_record {| page_content := content c;
                   metadata := [(of_string "source", JStr (source c))] |}
  = JObj [(of_string "source", JStr (source c));
          (of_string "excerpt", JStr (take 150 (content c) ++ of_string "..."))].
Proof.
  unfold source_record. cbn [metadata page_content].
  rewrite dict_get_single. reflexivity.
Qed.

(** C7: whatever [_handle_text_message] is given, every frame of type
    "text" it sends carries at most two source records, each naming a
    stored chunk with the first 150 characters of its content followed by
    the ellipsis; on a connected session a frame with content is answered
    by such a response frame; and when the query succeeds (the search finds
    the chunks [relevant] and the backend answers [text]) exactly one frame
    of type "text" is sent, its content is [text], and its source records
    are those of the first two chunks found, in the order of the ranking:
    the name of the source of the chunk, and as excerpt the first 150
    characters of its content followed by the ellipsis. *)
Theorem text_response_sources (session_id : str) (message : dict) (w : world) :
  ∃ evs,
    trace (_handle_text_message E config chunks session_id message w).2
    = trace w ++ evs
    ∧ (∀ ws frame,
         EvSend ws frame ∈ evs →
         dict_get frame (of_string "type") = Some (JStr (of_string "text")) →
         ∃ records,
           dict_get frame (of_string "sources") = Some (JArr records)
           ∧ length records ≤ 2
           ∧ Forall (excerpt_of_chunk chunks) records)
    ∧ (∀ ws s,
         active_connections w !! session_id = Some ws →
         dict_get message (of_string "content") = Some (JStr s) →
         strip s ≠ [] →
         ∃ answer sources,
           EvSend ws (text_response E answer sources) ∈ evs
           ∧ dict_get (text_response E answer sources) (of_string "type")
             = Some (JStr (of_string "text")))
    ∧ (∀ ws s relevant response text,
         active_connections w !! session_id = Some ws →
         dict_get message (of_string "content") = Some (JStr s) →
         strip s ≠ [] →
         _simple_search (str_lower E) chunks (strip s) 3 = relevant →
         relevant ≠ [] →
         ollama_generate E (grounded_request config relevant (strip s))
         = inr response →
         response_text response = inr text →
         ∃ frame,
           EvSend ws frame ∈ evs
           ∧ (∀ ws' frame',
                EvSend ws' frame' ∈ evs →
                dict_get frame' (of_string "type")
                = Some (JStr (of_string "text")) →
                frame' = frame)
           ∧ dict_get frame (of_string "type") = Some (JStr (of_string "text"))
           ∧ dict_get frame (of_string "content") = Some (JStr text)
           ∧ dict_get frame (of_string "sources")
             = Some (JArr (map (λ c, JObj [(of_string "source", JStr (source c));
                                           (of_string "excerpt",
                                            JStr (take 150 (content c)
                                                  ++ of_string "..."))])
                               (take 2 relevant)))).
Proof.
  pose (P := λ ev, match ev with
                   | EvSend _ frame => text_frame_ok chunks frame
                   | _ => True
                   end).
  destruct (handle_text_emits P session_id message) with (w := w)
    as (evs & Htrace & Hevs & _).
  - by intros [].
  - intros ws Htype. by vm_compute in Htype.
  - intros ws b Htype. by vm_compute in Htype.
  - intros ws answer sources Hsources. by apply text_response_ok.
  - exists evs. split; [done|]. split; [|split].
    + intros ws frame Hin. rewrite Forall_forall in Hevs.
      apply (Hevs _ Hin).
    + intros ws s Hws Hcontent Hs.
      destruct (handle_text_sends_response session_id message s ws w)
        as (answer & sources & qevs & lang & Hrun); [done..|].
      exists answer, sources. split.
      * rewrite Htrace in Hrun. apply app_inv_head in Hrun as ->.
        set_solver.
      * unfold text_response.
        generalize (map source_record (slice_to 2 sources)) (now_isoformat E)
          (processing_time_ms E).
        intros records now elapsed. by vm_compute.
    + intros ws s relevant response text Hws Hcontent Hs Hsearch Hne Hgen Htext.
      destruct (handle_text_grounded_trace session_id message s ws relevant
                  response text w) as (lang & Hrun); [done..|].
      rewrite Htrace in Hrun. apply app_inv_head in Hrun as ->.
      exists (text_response E text
                (map (λ c, {| page_content := content c;
                              metadata := [(of_string "source",
                                            JStr (source c))] |})
                     relevant)).
      split; [set_solver|].
      assert (Hfields :
        ∀ records now elapsed,
          dict_get [(of_string "type", JStr (of_string "text"));
                    (of_string "content", JStr text);
                    (of_string "sources", JArr records);
                    (of_string "timestamp", JStr now);
                    (of_string "processing_time_ms", JNum elapsed)]
                   (of_string "type") = Some (JStr (of_string "text"))
          ∧ dict_get [(of_string "type", JStr (of_string "text"));
                      (of_string "content", JStr text);
                      (of_string "sources", JArr records);
                      (of_string "timestamp", JStr now);
                      (of_string "processing_time_ms", JNum elapsed)]
                     (of_string "content") = Some (JStr text)
          ∧ dict_get [(of_string "type", JStr (of_string "text"));
                      (of_string "content", JStr text);
                      (of_string "sources", JArr records);
                      (of_string "timestamp", JStr now);
                      (of_string "processing_time_ms", JNum elapsed)]
                     (of_string "sources") = Some (JArr records)).
      { generalize text. intros t records now elapsed. by vm_compute. }
      split; [|unfold text_response;
               split; [apply (proj1 (Hfields _ _ _))|
                       split; [apply (proj1 (proj2 (Hfields _ _ _)))|]]].
      * intros ws' frame' Hin Htype.
        rewrite !elem_of_cons in Hin.
        destruct Hin as [Heq|[Heq|[Heq|[Heq|[Heq|[Heq|Hin]]]]]];
          try discriminate Heq; [| |by injection Heq|by apply elem_of_nil in Hin].
        -- injection Heq as _ ->. by vm_compute in Htype.
        -- injection Heq as _ ->. by vm_compute in Htype.
      * rewrite (proj2 (proj2 (Hfields _ _ _))). do 2 f_equal.
        unfold slice_to. simpl. rewrite <- (fmap_take _ 2 relevant).
        change (take (Z.to_nat 2)) with (@take chunk 2).
        rewrite <- list_fmap_compose. apply list_fmap_ext.
        intros i c _. apply source_record_chunk.
Qed.

End ResponseFacts.

(** A question about the opening hours on the sample store, asked by a
    connected session. *)
Lemma text_response_sources_witness :
  ∃ evs frame,
    trace (_handle_text_message Sample.env default_config Sample.kb Sample.alice
             [(of_string "content", JStr (of_string "What are your hours?"))]
             Sample.two_sessions).2
    = trace Sample.two_sessions ++ evs
    ∧ EvSend 1 frame ∈ evs
    ∧ dict_get frame (of_string "content")
      = Some (JStr (of_string "We are open 24/7."))
    ∧ dict_get frame (of_string "sources")
      = Some (JArr (map (λ c, JObj [(of_string "source", JStr (source c));
                                    (of_string "excerpt",
                                     JStr (take 150 (content c)
                                           ++ of_string "..."))])
                        (take 2 (_simple_search ascii_lower Sample.kb
                                   (of_string "What are your hours?") 3)))).
Proof.
  destruct (text_response_sources Sample.env default_config Sample.kb Sample.alice
              [(of_string "content", JStr (of_string "What are your hours?"))]
              Sample.two_sessions) as (evs & Htrace & _ & _ & Hsent).
  exists evs.
  destruct (Hsent 1 (of_string "What are your hours?")
              (_simple_search ascii_lower Sample.kb
                 (of_string "What are your hours?") 3)
              [(of_string "response", JStr (of_string " We are open 24/7. "))]
              (of_string "We are open 24/7."))
    as (frame & Hin & _ & _ & Hanswer & Hsources).
  - reflexivity.
  - reflexivity.
  - by vm_compute.
  - reflexivity.
  - by vm_compute.
  - reflexivity.
  - reflexivity.
  - by exists frame.
Defined.

(** The source records of that response: the two chunks on the opening
    hours, the better match first. *)
Example text_response_sample_records :
  map (λ c, JObj [(of_string "source", JStr (source c));
                  (of_string "excerpt",
                   JStr (take 150 (content c) ++ of_string "..."))])
      (take 2 (_simple_search ascii_lower Sample.kb
                 (of_string "What are your hours?") 3))
  = [JObj [(of_string "source", JStr (of_string "faq.txt"));
           (of_string "excerpt",
            JStr (of_string "Q: What are your hours? A: 24/7...."))];
     JObj [(of_string "source", JStr (of_string "faq.txt"));
           (of_string "excerpt",
            JStr (of_string "Q: What are your opening hours on holidays? A: 24/7 as well...."))]].
Proof. reflexivity. Qed.

(** ** C9: the audio reply *)

Section AudioFacts.

Variable E : environment.
Variable config : Config.
Variable chunks : list chunk.

(** Every frame [_handle_audio_message] sends is one of four kinds. *)
Lemma handle_audio_emits (P : event → Prop) (session_id : str) (message : dict) :
  (∀ ev, is_send ev = false → P ev) →
  (∀ ws error_message, P (EvSend ws (error_frame E error_message))) →
  (∀ ws b, P (EvSend ws (typing_frame b))) →
  (∀ ws answer sources,
     Forall (doc_of_chunk chunks) sources →
     P (EvSend ws (text_response E answer sources))) →
  (∀ ws text detected, P (EvSend ws (transcription_frame text detected))) →
  emits P (λ _, True) (_handle_audio_message E config chunks session_id message).
Proof.
  intros Hother Herror Htyping Htext Htranscription.
  unfold _handle_audio_message.
  apply emits_try_except; [|intros e; by apply emits_send_message].
  destruct (negb _); [by apply emits_send_message|].
  eapply (emits_bind _ (λ _, True)).
  { unfold base64_to_audio.
    eapply emits_bind; [by apply emits_emit, Hother|]. intros _ _.
    apply emits_lift. }
  intros audio_bytes _.
  eapply emits_bind; [apply emits_get_session_language|]. intros language_hint _.
  eapply (emits_bind _ (λ _, True)).
  { unfold transcribe_audio.
    eapply emits_bind; [by apply emits_emit, Hother|]. intros _ _.
    by apply emits_ret. }
  intros [[|c text] detected] _; [by apply emits_send_message|].
  eapply (emits_bind _ (λ _, True)).
  { case_decide; [apply emits_set_session_language|by apply emits_ret]. }
  intros _ _.
  eapply emits_bind; [by apply emits_send_message|]. intros _ _.
  eapply emits_bind; [by apply handle_text_emits|]. intros _ _.
  destruct (truthy _); by apply emits_ret.
Qed.

(** C9: [_send_audio_response] returns without sending anything or touching
    the registry; the outcome of [_handle_audio_message], the frames it
    sends included, does not depend on [want_audio_response] (two frames
    with the same [audio_data] are handled alike); and every frame it sends
    is an error, transcription, typing or text frame, so there is no audio
    frame among them. *)
Theorem audio_response_is_a_stub
    (session_id : str) (message message' : dict) (lang : str) (w : world) :
  _send_audio_response session_id lang w = (Return tt, w)
  ∧ (dict_get message (of_string "audio_data")
     = dict_get message' (of_string "audio_data") →
     _handle_audio_message E config chunks session_id message w
     = _handle_audio_message E config chunks session_id message' w)
  ∧ ∃ evs,
      trace (_handle_audio_message E config chunks session_id message w).2
      = trace w ++ evs
      ∧ ∀ ws frame,
          EvSend ws frame ∈ evs →
          ∃ kind,
            dict_get frame (of_string "type") = Some (JStr (of_string kind))
            ∧ kind ∈ ["error"; "transcription"; "typing"; "text"]%string.
Proof.
  split; [done|]. split.
  - intros Haudio.
    unfold _handle_audio_message, try_except. rewrite Haudio.
    destruct (negb _); [done|]. unfold bind.
    destruct (base64_to_audio E _ w) as [[audio_bytes|e] w1]; [|done].
    destruct (get_session_language session_id w1) as [[language_hint|e] w2]; [|done].
    destruct (transcribe_audio E _ _ w2) as [[[text detected]|e] w3]; [|done].
    destruct text as [|c text]; [done|].
    destruct (_ w3) as [[[]|e] w4]; [|done].
    destruct (send_message E _ _ w4) as [[[]|e] w5]; [|done].
    destruct (_handle_text_message E config chunks _ _ w5) as [[[]|e] w6]; [|done].
    unfold _send_audio_response.
    by do 2 destruct (truthy _).
  - pose (P := λ ev,
        match ev with
        | EvSend _ frame =>
            ∃ kind,
              dict_get frame (of_string "type") = Some (JStr (of_string kind))
              ∧ kind ∈ ["error"; "transcription"; "typing"; "text"]%string
        | _ => True
        end).
    destruct (handle_audio_emits P session_id message) with (w := w)
      as (evs & Htrace & Hevs & _).
    + by intros [].
    + intros ws error_message. exists "error"%string. split; [|set_solver].
      unfold error_frame. generalize (now_isoformat E). intros now.
      by vm_compute.
    + intros ws b. exists "typing"%string. split; [|set_solver].
      by destruct b; vm_compute.
    + intros ws answer sources _. exists "text"%string. split; [|set_solver].
      unfold text_response.
      generalize (map source_record (slice_to 2 sources)) (now_isoformat E)
        (processing_time_ms E).
      intros records now elapsed. by vm_compute.
    + intros ws text detected. exists "transcription"%string.
      split; [|set_solver]. by vm_compute.
    + exists evs. split; [done|]. intros ws frame Hin.
      rewrite Forall_forall in Hevs. apply (Hevs _ Hin).
Qed.

End AudioFacts.

(** The same audio frame with and without the request for an audio reply. *)
Lemma audio_response_is_a_stub_witness :
  _handle_audio_message Sample.env default_config Sample.kb Sample.alice
    [(of_string "audio_data", JStr (of_string "UklGRg=="));
     (of_string "want_audio_response", JBool true)] Sample.two_sessions
  = _handle_audio_message Sample.env default_config Sample.kb Sample.alice
      [(of_string "audio_data", JStr (of_string "UklGRg=="))] Sample.two_sessions.
Proof.
  apply (audio_response_is_a_stub Sample.env default_config Sample.kb Sample.alice
           [(of_string "audio_data", JStr (of_string "UklGRg=="));
            (of_string "want_audio_response", JBool true)]
           [(of_string "audio_data", JStr (of_string "UklGRg=="))]
           (of_string "en") Sample.two_sessions).
  reflexivity.
Defined.

(** The frames sent for the sample audio frame that asks for an audio
    reply: the transcription, the typing indicator, the text response and the
    end of the indicator, and no other frame. *)
Example audio_frame_with_reply_requested :
  omap (λ ev, match ev with
              | EvSend ws frame => Some (ws, dict_get frame (of_string "type"))
              | _ => None
              end)
       (trace (_handle_audio_message Sample.env default_config Sample.kb
                 Sample.alice
                 [(of_string "audio_data", JStr (of_string "UklGRg=="));
                  (of_string "want_audio_response", JBool true)]
                 Sample.two_sessions).2)
  = [(1, Some (JStr (of_string "transcription")));
     (1, Some (JStr (of_string "typing")));
     (1, Some (JStr (of_string "typing")));
     (1, Some (JStr (of_string "text")))].
Proof. by vm_compute. Qed.

(** ** C10: a frame without a type *)

Section DispatchFacts.

Variable E : environment.
Variable config : Config.
Variable chunks : list chunk.

(** Two sends differ when their frames differ on the type or on the
    message. *)
Lemma send_differs (ws ws' : handle) (frame frame' : dict) (key : str) :
  dict_get frame key ≠ dict_get frame' key →
  EvSend ws frame ≠ EvSend ws' frame'.
Proof. intros Hne Heq. apply Hne. by injection Heq as _ ->. Qed.

Lemma known_type_error (ws : handle) (error_message : str) :
  error_message ≠ of_string "Unknown message type" →
  known_type E (EvSend ws (error_frame E error_message)).
Proof.
  intros Hne ws'. apply (send_differs _ _ _ _ (of_string "message")).
  unfold error_frame. generalize (now_isoformat E). intros now.
  intros Heq. apply Hne.
  assert (dict_get [(of_string "type", JStr (of_string "error"));
                    (of_string "message", JStr error_message);
                    (of_string "timestamp", JStr now)] (of_string "message")
          = Some (JStr error_message)) as Hget by by vm_compute.
  rewrite Hget in Heq. vm_compute in Heq. by injection Heq.
Qed.

Lemma known_type_other (ws : handle) (frame : dict) (kind : str) :
  dict_get frame (of_string "type") = Some (JStr kind) →
  kind ≠ of_string "error" →
  known_type E (EvSend ws frame).
Proof.
  intros Hkind Hne ws'. apply (send_differs _ _ _ _ (of_string "type")).
  rewrite Hkind. unfold error_frame. generalize (now_isoformat E). intros now.
  intros Heq. apply Hne. vm_compute in Heq. injection Heq as ->. done.
Qed.

(** C10: a frame that decodes to a JSON object with no ["type"] field is
    handled exactly as [_handle_text_message] handles the object, inside
    the [try] of [_process_message]; no frame sent for it is the "Unknown
    message type" error. *)
Theorem process_message_missing_type
    (session_id raw_message : str) (message : dict) (w : world) :
  json_loads E raw_message = inr (JObj message) →
  dict_get message (of_string "type") = None →
  _process_message E config chunks session_id raw_message w
  = try_except (_handle_text_message E config chunks session_id message)
               (process_message_except E session_id) w
  ∧ ∃ evs,
      trace (_process_message E config chunks session_id raw_message w).2
      = trace w ++ evs
      ∧ ∀ ws, EvSend ws (error_frame E (of_string "Unknown message type")) ∉ evs.
Proof.
  intros Hloads Htype.
  assert (Hrun : _process_message E config chunks session_id raw_message w
                 = try_except (_handle_text_message E config chunks session_id message)
                     (process_message_except E session_id) w).
  { unfold _process_message, try_except, bind, message_get_type.
    rewrite Hloads. simpl. rewrite Htype. simpl.
    replace (eq_str (JStr (of_string "text")) (of_string "text")) with true
      by by vm_compute.
    done. }
  split; [done|]. rewrite Hrun.
  assert (Hemits : emits (known_type E) (λ _, True)
            (try_except (_handle_text_message E config chunks session_id message)
                        (process_message_except E session_id))).
  { apply emits_try_except.
    - apply handle_text_emits.
      + intros ev Hev ws ->. done.
      + intros ws. apply known_type_error. by vm_compute.
      + intros ws b. apply (known_type_other _ _ (of_string "typing")); by vm_compute.
      + intros ws answer sources _.
        apply (known_type_other _ _ (of_string "text")); [|by vm_compute].
        unfold text_response.
        generalize (map source_record (slice_to 2 sources)) (now_isoformat E)
          (processing_time_ms E).
        intros records now elapsed. by vm_compute.
    - intros e. unfold process_message_except.
      destruct e; apply emits_send_message; intros ws;
        apply known_type_error; by vm_compute. }
  destruct (Hemits w) as (evs & Htrace & Hevs & _).
  exists evs. split; [done|].
  intros ws Hin. rewrite Forall_forall in Hevs. by apply (Hevs _ Hin ws).
Qed.

End DispatchFacts.

(** The frame [{}] on a connected session: it is handled as a text frame
    with no content. *)
Lemma process_message_missing_type_witness :
  _process_message Sample.env default_config Sample.kb Sample.alice
    (of_string "{}") Sample.two_sessions
  = (Return tt,
     World (active_connections Sample.two_sessions)
           (session_metadata Sample.two_sessions)
           [EvSend 1 (error_frame Sample.env (of_string "Empty message"))]).
Proof.
  destruct (process_message_missing_type Sample.env default_config Sample.kb
              Sample.alice (of_string "{}") [] Sample.two_sessions)
    as [Hrun _].
  - reflexivity.
  - reflexivity.
  - rewrite Hrun. reflexivity.
Defined.

(** * Further properties *)

(** ** The search as a prefix of the ranking *)

Section RankingFacts.

Variable lower : str → str.
Variable query : str.

Local Abbreviation sc := (chunk_score lower query).

Lemma slice_to_map {A B} (f : A → B) (k : Z) (l : list A) :
  map f (slice_to k l) = slice_to k (map f l).
Proof.
  unfold slice_to. rewrite length_map.
  destruct (0 <=? k)%Z; apply (fmap_take f).
Qed.

Lemma simple_search_slice (chunks : list chunk) (top_k : Z) :
  _simple_search lower chunks query top_k
  = slice_to top_k (ranking lower chunks query).
Proof. unfold _simple_search, ranking. apply slice_to_map. Qed.

Lemma ranking_Permutation (chunks : list chunk) :
  ranking lower chunks query ≡ₚ filter (λ c, 1 ≤ sc c) chunks.
Proof.
  unfold ranking. rewrite <- scored_chunks_snd.
  apply (fmap_Permutation snd), sort_desc_Permutation.
Qed.

Lemma ranking_sorted (chunks : list chunk) :
  StronglySorted (desc sc) (ranking lower chunks query).
Proof.
  unfold ranking.
  assert (Hfst : Forall (λ p, p.1 = sc p.2)
                   (sort_desc fst (scored_chunks lower query chunks))).
  { rewrite sort_desc_Permutation.
    eapply Forall_impl; [apply scored_chunks_fst|]. by intros p [? _]. }
  pose proof (sort_desc_sorted fst (scored_chunks lower query chunks)) as Hsorted.
  revert Hfst. induction Hsorted as [|p l Hl IH Hp]; intros Hfst; simpl;
    [constructor|].
  apply Forall_cons in Hfst as [Hp1 Hfst].
  constructor; [by apply IH|].
  rewrite Forall_map. rewrite Forall_forall in Hp, Hfst |- *.
  intros q Hq. specialize (Hp q Hq). specialize (Hfst q Hq).
  unfold desc in *. simpl. by rewrite <- Hp1, <- Hfst.
Qed.

Lemma split_blank (s : str) : blank s → split s = [].
Proof.
  unfold split. induction 1 as [|c s Hc _ IH]; simpl; [done|]. by rewrite Hc.
Qed.

(** X1: a query that shares no word with any chunk finds nothing, whatever
    the bound; so does a query that is empty or only whitespace once
    lowercased; and with a positive bound an empty result means that no
    chunk shares a word with the query. *)
Theorem simple_search_no_match (chunks : list chunk) (top_k : Z) :
  (Forall (λ c, chunk_score lower query c = 0) chunks →
   _simple_search lower chunks query top_k = [])
  ∧ (blank (lower query) → _simple_search lower chunks query top_k = [])
  ∧ ((0 < top_k)%Z →
     _simple_search lower chunks query top_k = [] →
     Forall (λ c, chunk_score lower query c = 0) chunks).
Proof.
  assert (Hnone : Forall (λ c, sc c = 0) chunks →
                  _simple_search lower chunks query top_k = []).
  { intros Hzero. rewrite simple_search_slice.
    assert (ranking lower chunks query = []) as ->.
    { apply Permutation_nil_r. rewrite ranking_Permutation.
      induction Hzero as [|c l Hc _ IH]; [done|].
      rewrite filter_cons_False by lia. done. }
    destruct (slice_to_take top_k (@nil chunk)) as [n ->]. by destruct n. }
  split; [done|]. split.
  - intros Hblank. apply Hnone, Forall_forall. intros c _.
    unfold chunk_score, query_words_of. by rewrite split_blank.
  - intros Hk Hempty. rewrite simple_search_slice in Hempty.
    unfold slice_to in Hempty. destruct (Z.leb_spec 0 top_k); [|lia].
    assert (ranking lower chunks query = []) as Hrank.
    { destruct (ranking lower chunks query) as [|c l]; [done|].
      destruct (Z.to_nat top_k) eqn:Hn; [lia|done]. }
    pose proof (ranking_Permutation chunks) as Hperm.
    rewrite Hrank in Hperm. symmetry in Hperm. apply Permutation_nil_r in Hperm.
    apply Forall_forall. intros c Hc.
    destruct (decide (1 ≤ sc c)) as [Hpos|]; [|lia].
    assert (c ∈ filter (λ c, 1 ≤ sc c) chunks) as Hin
      by by apply list_elem_of_filter.
    rewrite Hperm in Hin. by apply elem_of_nil in Hin.
Qed.

(** X2: for a bound [top_k >= 0] the search returns exactly
    [min(top_k, number of matching chunks)] chunks, and a larger bound only
    appends results to those of a smaller one. *)
Theorem simple_search_grows_with_bound (chunks : list chunk) (k k' : Z) :
  (0 ≤ k)%Z → (k ≤ k')%Z →
  length (_simple_search lower chunks query k)
  = Nat.min (Z.to_nat k) (length (matching lower chunks query))
  ∧ _simple_search lower chunks query k
    `prefix_of` _simple_search lower chunks query k'.
Proof.
  intros Hk Hk'. rewrite !simple_search_slice. unfold slice_to, matching.
  destruct (Z.leb_spec 0 k); [|lia]. destruct (Z.leb_spec 0 k'); [|lia].
  split.
  - rewrite length_take, (Permutation_length (ranking_Permutation chunks)). lia.
  - replace (Z.to_nat k) with (Nat.min (Z.to_nat k) (Z.to_nat k')) by lia.
    rewrite <- take_take. apply prefix_take.
Qed.

(** X3: when the bound is at least the number of matching chunks, the
    result holds every matching chunk, each as many times as it is stored,
    and nothing else. *)
Theorem simple_search_complete (chunks : list chunk) (top_k : Z) :
  (Z.of_nat (length (matching lower chunks query)) ≤ top_k)%Z →
  _simple_search lower chunks query top_k ≡ₚ matching lower chunks query.
Proof.
  unfold matching. intros Hk. rewrite simple_search_slice. unfold slice_to.
  destruct (Z.leb_spec 0 top_k); [|lia].
  rewrite take_ge; [apply ranking_Permutation|].
  rewrite (Permutation_length (ranking_Permutation chunks)). lia.
Qed.

(** X4: the chunks returned are the best ones: a stored chunk that is not
    in the result scores no more than any chunk that is. *)
Theorem simple_search_returns_the_best
    (chunks : list chunk) (top_k : Z) (c r : chunk) :
  c ∈ chunks →
  c ∉ _simple_search lower chunks query top_k →
  r ∈ _simple_search lower chunks query top_k →
  chunk_score lower query c ≤ chunk_score lower query r.
Proof.
  rewrite simple_search_slice.
  destruct (slice_to_take top_k (ranking lower chunks query)) as [n ->].
  intros Hc Hout Hr.
  pose proof (ranking_sorted chunks) as Hsorted.
  pose proof (ranking_Permutation chunks) as Hperm.
  rewrite <- (take_drop n (ranking lower chunks query)) in Hsorted, Hperm.
  assert (1 ≤ sc r) as Hrpos.
  { assert (r ∈ filter (λ c, 1 ≤ sc c) chunks) as Hin
      by (rewrite <- Hperm; set_solver).
    by apply list_elem_of_filter in Hin as [? _]. }
  destruct (decide (1 ≤ sc c)) as [Hcpos|]; [|lia].
  assert (c ∈ take n (ranking lower chunks query)
              ++ drop n (ranking lower chunks query)) as Hin
    by (rewrite Hperm; by apply list_elem_of_filter).
  apply elem_of_app in Hin as [Hin|Hin]; [done|].
  apply StronglySorted_app in Hsorted as (Hcross & _ & _).
  apply (Hcross r c Hr Hin).
Qed.

End RankingFacts.

(** The bounds 2 and 3 on the sample store. *)
Lemma simple_search_grows_with_bound_witness :
  _simple_search ascii_lower Sample.kb (of_string "hours shipping") 2
  `prefix_of` _simple_search ascii_lower Sample.kb (of_string "hours shipping") 3.
Proof.
  apply (simple_search_grows_with_bound ascii_lower (of_string "hours shipping")
           Sample.kb 2 3); lia.
Defined.

(** The three chunks of the sample store match "hours shipping". *)
Lemma simple_search_complete_witness :
  _simple_search ascii_lower Sample.kb (of_string "hours shipping") 3
  ≡ₚ matching ascii_lower Sample.kb (of_string "hours shipping").
Proof.
  apply (simple_search_complete ascii_lower (of_string "hours shipping")
           Sample.kb 3).
  by vm_compute.
Defined.

(** With the bound 1 the second chunk of the sample store is left out; it
    scores no more than the first, which is returned. *)
Lemma simple_search_returns_the_best_witness :
  chunk_score ascii_lower (of_string "hours shipping")
    (Chunk (of_string "Q: How long does shipping take? A: 5-7 business days.")
           Sample.faq Sample.faq)
  ≤ chunk_score ascii_lower (of_string "hours shipping")
      (Chunk (of_string "Q: What are your hours? A: 24/7.") Sample.faq Sample.faq).
Proof.
  apply (simple_search_returns_the_best ascii_lower (of_string "hours shipping")
           Sample.kb 1).
  - apply (bool_decide_unpack _). by vm_compute.
  - apply (bool_decide_unpack _). by vm_compute.
  - apply (bool_decide_unpack _). by vm_compute.
Defined.

(** No chunk of the sample store shares a word with this query. *)
Lemma simple_search_no_match_witness :
  _simple_search ascii_lower Sample.kb (of_string "asdkjasd completely unrelated") 3
  = [].
Proof.
  apply (proj1 (simple_search_no_match ascii_lower
                  (of_string "asdkjasd completely unrelated") Sample.kb 3)).
  apply (bool_decide_unpack _). by vm_compute.
Defined.

(** ** Chunks as groups of paragraphs *)

Section GroupingFacts.

Variable chunk_size : Z.

Local Abbreviation sep := [newline; newline].

Lemma join_snoc (l : list str) (x : str) :
  l ≠ [] → join sep (l ++ [x]) = join sep l ++ sep ++ x.
Proof.
  induction l as [|a l IH]; [done|]. intros _.
  destruct l as [|b l]; [done|].
  change (join sep ((a :: b :: l) ++ [x]))
    with (a ++ sep ++ join sep ((b :: l) ++ [x])).
  rewrite IH by done.
  change (join sep (a :: b :: l)) with (a ++ sep ++ join sep (b :: l)).
  by rewrite <- !app_assoc.
Qed.

Lemma stripped_app (a mid b : str) :
  paragraph a → paragraph b → paragraph (a ++ mid ++ b).
Proof.
  intros [[Ha1 Ha2] Ha] [[Hb1 Hb2] Hb]. split; [split|].
  - by apply lstrip_app_fixed.
  - rewrite !rev_app_distr, <- app_assoc. apply lstrip_app_fixed; [|done].
    intros Hrev. apply Hb. by rewrite <- (rev_involutive b), Hrev.
  - intros Heq. by apply app_eq_nil in Heq as [? _].
Qed.

Lemma paragraph_join (group : list str) :
  group ≠ [] → Forall paragraph group → paragraph (join sep group).
Proof.
  intros Hne Hall. induction Hall as [|p group Hp Hall IH]; [done|].
  destruct group as [|q group]; [done|].
  change (join sep (p :: q :: group)) with (p ++ sep ++ join sep (q :: group)).
  apply stripped_app; [done|]. by apply IH.
Qed.

Lemma paragraph_strip (raw : str) : strip raw ≠ [] → paragraph (strip raw).
Proof. intros Hne. split; [apply strip_stripped|done]. Qed.

Lemma strip_join_sep (group : list str) :
  group ≠ [] → Forall paragraph group →
  strip (join sep group ++ sep) = join sep group.
Proof.
  intros Hne Hall. apply strip_app_blank; [|by repeat constructor].
  by apply paragraph_join.
Qed.

Lemma filled_single (p : str) : filled chunk_size [[p]].
Proof. intros i group para next _ Hnext. by destruct i. Qed.

(** A paragraph appended to the open group. *)
Lemma filled_grow (groups : list (list str)) (group : list str) (p : str) :
  group ≠ [] →
  filled chunk_size (groups ++ [group]) →
  filled chunk_size (groups ++ [group ++ [p]]).
Proof.
  intros Hne Hfilled i g para next Hi Hnext.
  pose proof (lookup_lt_Some _ _ _ Hnext) as Hlt.
  rewrite length_app in Hlt. simpl in Hlt.
  rewrite lookup_app_l in Hi by lia.
  destruct (decide (S i < length groups)) as [Hin|Hlast].
  - rewrite lookup_app_l in Hnext by done.
    apply (Hfilled i g para next); by rewrite lookup_app_l by lia.
  - assert (S i = length groups) as Hi' by lia.
    rewrite lookup_app_r, Hi', Nat.sub_diag in Hnext by lia.
    simpl in Hnext. destruct group as [|q group]; [done|].
    injection Hnext as <- <-.
    apply (Hfilled i g q group); [by rewrite lookup_app_l by lia|].
    by rewrite lookup_app_r, Hi', Nat.sub_diag by lia.
Qed.

(** The open group closed, a new one opened with the paragraph that did not
    fit. *)
Lemma filled_flush (groups : list (list str)) (group : list str) (p : str) :
  (chunk_size ≤ Z.of_nat (length (join sep (group ++ [p]))))%Z →
  filled chunk_size (groups ++ [group]) →
  filled chunk_size ((groups ++ [group]) ++ [[p]]).
Proof.
  intros Hge Hfilled i g para next Hi Hnext.
  pose proof (lookup_lt_Some _ _ _ Hnext) as Hlt.
  rewrite !length_app in Hlt. simpl in Hlt.
  destruct (decide (S i < length (groups ++ [group]))) as [Hin|Hlast].
  - rewrite lookup_app_l in Hi by lia. rewrite lookup_app_l in Hnext by done.
    by apply (Hfilled i g para next).
  - rewrite length_app in Hlast. simpl in Hlast.
    assert (i = length groups) as -> by lia.
    rewrite lookup_app_r in Hnext by (rewrite length_app; simpl; lia).
    rewrite length_app in Hnext. simpl in Hnext.
    replace (S (length groups) - (length groups + 1)) with 0 in Hnext by lia.
    injection Hnext as <- <-.
    rewrite <- app_assoc, lookup_app_r, Nat.sub_diag in Hi by lia.
    by injection Hi as <-.
Qed.

(** One iteration of the loop keeps the invariant. *)
Lemma split_text_step_inv (done : list str) (st : list str * str) (raw : str) :
  Forall paragraph done →
  chunking_inv chunk_size done st →
  chunking_inv chunk_size
    (done ++ match strip raw with [] => [] | _ :: _ => [strip raw] end)
    (split_text_step chunk_size st raw).
Proof.
  intros Hdone Hinv. unfold split_text_step. destruct st as [chunks current].
  destruct (strip raw) as [|c t] eqn:Hraw; [by rewrite app_nil_r|].
  rewrite <- Hraw.
  assert (Hp : paragraph (strip raw)) by (apply paragraph_strip; by rewrite Hraw).
  destruct Hinv as [[-> [= -> ->]]|(groups & group & [= -> ->] & Hconcat & Hne & Hgroups & Hfits & Hfilled)].
  - right. exists [], [strip raw]. simpl.
    split; [by destruct (_ <? _)%Z|].
    split; [done|]. split; [done|]. split; [done|].
    split; [repeat constructor|apply filled_single].
  - right.
    assert (Hall : Forall paragraph group).
    { rewrite <- Hconcat, concat_app, Forall_app in Hdone.
      destruct Hdone as [_ Hlast]. simpl in Hlast. by rewrite app_nil_r in Hlast. }
    destruct (Z.ltb_spec
                (Z.of_nat (length (join sep group ++ sep))
                 + Z.of_nat (length (strip raw))) chunk_size) as [Hlt|Hge].
    + exists groups, (group ++ [strip raw]).
      split; [|split; [|split; [|split; [|split]]]].
      * rewrite join_snoc by done. by rewrite <- !app_assoc.
      * rewrite !concat_app in *. simpl in *. rewrite ?app_nil_r in *.
        by rewrite <- Hconcat, app_assoc.
      * intros Heq. by apply app_eq_nil in Heq as [_ ?].
      * done.
      * apply Forall_app in Hfits as [Hfits _].
        apply Forall_app. split; [done|]. constructor; [|done].
        right. rewrite join_snoc by done.
        rewrite !length_app in *. simpl in *. lia.
      * by apply filled_grow.
    + exists (groups ++ [group]), [strip raw].
      split; [|split; [|split; [|split; [|split]]]].
      * destruct (join sep group ++ sep) as [|c' t'] eqn:Hcur;
          [by apply app_eq_nil in Hcur as [_ ?]|].
        rewrite <- Hcur, strip_join_sep by done.
        by rewrite map_app.
      * rewrite concat_app, Hconcat. done.
      * done.
      * apply Forall_app. split; [done|]. by repeat constructor.
      * apply Forall_app. split; [done|]. repeat constructor.
      * apply filled_flush; [|done]. rewrite join_snoc by done.
        rewrite !length_app in *. simpl in *. lia.
Qed.

Lemma foldl_split_text_step_inv
    (raws done : list str) (st : list str * str) :
  Forall paragraph done →
  chunking_inv chunk_size done st →
  chunking_inv chunk_size
    (done ++ filter (λ p, p ≠ []) (map strip raws))
    (foldl (split_text_step chunk_size) st raws).
Proof.
  revert done st. induction raws as [|raw raws IH]; intros done st Hdone Hinv.
  - simpl. by rewrite filter_nil, app_nil_r.
  - simpl. rewrite filter_cons.
    pose proof (split_text_step_inv done st raw Hdone Hinv) as Hstep.
    destruct (strip raw) as [|c t] eqn:Hraw.
    + rewrite decide_False by (intros Hne; by apply Hne).
      rewrite app_nil_r in Hstep. by apply IH.
    + rewrite decide_True by done.
      rewrite (cons_middle (c :: t)), app_assoc. apply IH; [|done].
      apply Forall_app. split; [done|]. constructor; [|done].
      rewrite <- Hraw. apply paragraph_strip. by rewrite Hraw.
Qed.

Lemma elem_of_concat (groups : list (list str)) (group : list str) (p : str) :
  group ∈ groups → p ∈ group → p ∈ concat groups.
Proof.
  rewrite !list_elem_of_In. intros Hgroup Hp. apply in_concat. eauto.
Qed.

Lemma paragraphs_of_paragraph (text : str) :
  Forall paragraph (paragraphs_of text).
Proof.
  apply Forall_forall. intros p Hp. unfold paragraphs_of in Hp.
  apply list_elem_of_filter in Hp as [Hp Hin].
  apply list_elem_of_fmap in Hin as (raw & -> & _).
  by apply paragraph_strip.
Qed.

(** The chunks of a text that is not only whitespace are its paragraphs
    accumulated with a flush at the threshold. *)
Lemma split_text_accumulated (text : str) (overlap : Z) :
  ¬ blank text →
  accumulated chunk_size (paragraphs_of text)
    (_split_text text chunk_size overlap).
Proof.
  intros Hnb.
  assert (Hchunks : split_text_chunks text chunk_size ≠ [])
    by (intros Hnil; by apply Hnb, (split_text_chunks_nil chunk_size)).
  unfold _split_text.
  destruct (split_text_chunks text chunk_size) as [|c0 chunks0] eqn:Hrun; [done|].
  rewrite <- Hrun. clear Hchunks c0 chunks0 Hrun.
  unfold split_text_chunks, paragraphs_of.
  pose proof (foldl_split_text_step_inv (re_split_blank_lines text) [] ([], []))
    as Hinv.
  simpl in Hinv.
  destruct (foldl _ _ _) as [chunks current].
  destruct Hinv as [[Hnone [= -> ->]]|(groups & group & [= -> ->] & Hconcat & Hne & Hgroups & Hfits & Hfilled)];
    [constructor|by left|..].
  - exfalso. apply Hnb, (split_text_chunks_nil chunk_size).
    unfold split_text_chunks.
    rewrite foldl_split_text_step_blank; [done|].
    apply Forall_forall. intros raw Hraw. apply strip_nil_blank.
    destruct (strip raw) as [|c t] eqn:Hstrip; [done|].
    assert (strip raw ∈ filter (λ p, p ≠ []) (map strip (re_split_blank_lines text)))
      as Hin.
    { apply list_elem_of_filter. split; [by rewrite Hstrip|].
      apply list_elem_of_fmap. eauto. }
    rewrite Hnone in Hin. by apply elem_of_nil in Hin.
  - assert (Hall : Forall paragraph group).
    { assert (Forall paragraph (filter (λ p, p ≠ [])
                                  (map strip (re_split_blank_lines text)))) as Hps.
      { apply Forall_forall. intros p Hp.
        apply list_elem_of_filter in Hp as [Hp Hin].
        apply list_elem_of_fmap in Hin as (raw & -> & _).
        by apply paragraph_strip. }
      rewrite <- Hconcat, concat_app, Forall_app in Hps.
      destruct Hps as [_ Hlast]. simpl in Hlast. by rewrite app_nil_r in Hlast. }
    exists (groups ++ [group]).
    split; [done|]. split; [apply Forall_app; by repeat constructor|].
    split; [done|]. split; [done|].
    destruct (join sep group ++ sep) as [|c' t'] eqn:Hcur;
      [by apply app_eq_nil in Hcur as [_ ?]|].
    rewrite <- Hcur, strip_join_sep by done.
    by rewrite map_app.
Qed.

Lemma split_text_grouped (text : str) (overlap : Z) :
  ¬ blank text →
  grouped chunk_size (paragraphs_of text) (_split_text text chunk_size overlap).
Proof.
  intros Hnb.
  destruct (split_text_accumulated text overlap Hnb)
    as (groups & Hconcat & Hne & Hfits & _ & Hchunks).
  by exists groups.
Qed.

(** X5: no text is lost, repeated or reordered by the chunking. For a text
    that is not only whitespace, the chunks are the stripped, non-empty
    paragraphs of the text in their order, cut into consecutive groups and
    joined by blank lines inside a group; a group of several paragraphs is
    shorter than [chunk_size], so a chunk that reaches [chunk_size] is a
    single paragraph, never split. *)
Theorem split_text_groups_paragraphs (text : str) (overlap : Z) :
  ¬ blank text →
  grouped chunk_size (paragraphs_of text) (_split_text text chunk_size overlap)
  ∧ Forall (λ chunk, (Z.of_nat (length chunk) < chunk_size)%Z
                     ∨ chunk ∈ paragraphs_of text)
           (_split_text text chunk_size overlap).
Proof.
  intros Hnb. split; [by apply split_text_grouped|].
  destruct (split_text_grouped text overlap Hnb)
    as (groups & Hconcat & Hne & Hfits & ->).
  rewrite Forall_map. apply Forall_forall. intros group Hgroup.
  rewrite Forall_forall in Hfits. destruct (Hfits group Hgroup) as [Hone|Hlt].
  - right. destruct group as [|p [|q group]]; [done| |done]. simpl.
    rewrite <- Hconcat. apply (elem_of_concat _ [p]); [done|by left].
  - by left.
Qed.

(** X6: for a text that is not only whitespace, no chunk is empty and no
    chunk starts or ends with whitespace. *)
Theorem split_text_chunks_are_stripped (text : str) (overlap : Z) :
  ¬ blank text →
  Forall (λ chunk, chunk ≠ [] ∧ stripped chunk)
         (_split_text text chunk_size overlap).
Proof.
  intros Hnb.
  destruct (split_text_grouped text overlap Hnb)
    as (groups & Hconcat & Hne & _ & ->).
  rewrite Forall_map. apply Forall_forall. intros group Hgroup.
  rewrite Forall_forall in Hne.
  assert (paragraph (join sep group)) as [? ?]; [|done].
  apply paragraph_join; [by apply Hne|].
  apply Forall_forall. intros p Hp.
  assert (p ∈ paragraphs_of text) as Hin.
  { rewrite <- Hconcat. by apply (elem_of_concat _ group). }
  pose proof (paragraphs_of_paragraph text) as Hps.
  rewrite Forall_forall in Hps. by apply Hps.
Qed.

(** *** Cutting at blank lines *)

Lemma blank_line_free_short (x : str) : length x ≤ 1 → blank_line_free x.
Proof.
  unfold blank_line_free. intros Hlen.
  destruct (contains [newline; newline] x) eqn:Hx; [|done].
  apply contains_substring in Hx as (pre & post & ->).
  rewrite !length_app in Hlen. simpl in Hlen. lia.
Qed.

Lemma blank_line_free_app_l (a b : str) :
  blank_line_free (a ++ b) → blank_line_free a.
Proof.
  unfold blank_line_free. intros Hab.
  destruct (contains [newline; newline] a) eqn:Ha; [|done].
  apply contains_substring in Ha as (pre & post & ->).
  rewrite <- Hab. symmetry. apply contains_substring.
  exists pre, (post ++ b). by rewrite <- !app_assoc.
Qed.

(** Two texts without a blank line put together give no blank line, unless
    a newline that ends the first meets a newline that begins the second. *)
Lemma blank_line_free_app (a b : str) :
  blank_line_free a → blank_line_free b →
  last a ≠ Some newline ∨ head b ≠ Some newline →
  blank_line_free (a ++ b).
Proof.
  unfold blank_line_free. intros Ha Hb Hmeet.
  destruct (contains [newline; newline] (a ++ b)) eqn:Hab; [|done]. exfalso.
  apply contains_substring in Hab as (pre & post & Hab).
  apply app_eq_inv in Hab as [(k & -> & Hk)|(k & -> & ->)].
  - destruct k as [|c1 [|c2 k]]; simpl in Hk.
    + rewrite (proj2 (contains_substring _ b)) in Hb; [done|].
      exists [], post. by rewrite <- Hk.
    + injection Hk as <- <-. rewrite last_snoc in Hmeet. simpl in Hmeet.
      by destruct Hmeet.
    + injection Hk as <- <- _.
      rewrite (proj2 (contains_substring _ _)) in Ha; [done|].
      by exists pre, k.
  - rewrite (proj2 (contains_substring _ _)) in Hb; [done|].
    by exists k, post.
Qed.

(** The scan of [re.split]: outside a separator the piece in progress has no
    blank line, also with the next character; inside a separator the
    pieces found so far end with a run of newlines. *)
Lemma re_split_from_cut (s : str) :
  (∀ cur, blank_line_free (rev cur ++ take 1 s) →
          cut_at_blank_lines (rev cur ++ s) (re_split_from false cur s))
  ∧ (∀ piece n,
       blank_line_free piece →
       2 ≤ n ∨ (1 ≤ n ∧ ∃ s', s = newline :: s') →
       cut_at_blank_lines (piece ++ repeat newline n ++ s)
                          (piece :: re_split_from true [] s)).
Proof.
  induction s as [|c s [IHout IHin]].
  - split.
    + intros cur Hcur. simpl in *. rewrite app_nil_r in *. by constructor.
    + intros piece n Hpiece [Hn|[_ [s' Hs']]]; [|done].
      replace n with (2 + (n - 2)) by lia.
      apply cut_more; [done|]. constructor.
      apply blank_line_free_short. simpl. lia.
  - split.
    + intros cur Hcur. simpl in Hcur.
      assert (Hpush : blank_line_free ((rev cur ++ [c]) ++ take 1 s) →
                      cut_at_blank_lines (rev cur ++ c :: s)
                        (re_split_from false (c :: cur) s)).
      { intros Hnext. rewrite (cons_middle c), app_assoc.
        apply (IHout (c :: cur)). exact Hnext. }
      simpl. destruct (N.eqb_spec c newline) as [->|Hc].
      * destruct s as [|c' s].
        { apply Hpush. simpl. by rewrite app_nil_r. }
        destruct (N.eqb_spec c' newline) as [->|Hc'].
        -- apply (IHin (rev cur) 1).
           ++ by apply blank_line_free_app_l in Hcur.
           ++ right. split; [done|]. by exists s.
        -- apply Hpush. simpl.
           apply blank_line_free_app; [done|apply blank_line_free_short; simpl; lia|].
           right. simpl. congruence.
      * apply Hpush.
        apply blank_line_free_app;
          [done|apply blank_line_free_short; rewrite length_take; lia|].
        left. rewrite last_snoc. congruence.
    + intros piece n Hpiece Hn. simpl.
      destruct (N.eqb_spec c newline) as [->|Hc].
      * replace (repeat newline n ++ newline :: s)
          with (repeat newline (S n) ++ s)
          by (rewrite (cons_middle newline), app_assoc, <- repeat_cons; done).
        apply IHin; [done|]. left. destruct Hn as [?|[? _]]; lia.
      * destruct Hn as [Hn|[_ [s' Hs']]]; [|congruence].
        replace n with (2 + (n - 2)) by lia.
        apply cut_more; [done|].
        apply (IHout [c]). simpl.
        apply (blank_line_free_app [c]);
          [apply blank_line_free_short; simpl; lia
          |apply blank_line_free_short; rewrite length_take; lia|].
        left. simpl. congruence.
Qed.

Lemma re_split_cut (text : str) :
  cut_at_blank_lines text (re_split_blank_lines text).
Proof.
  apply (proj1 (re_split_from_cut text) []). simpl.
  apply blank_line_free_short. rewrite length_take. lia.
Qed.

(** C3 (amended): the chunking cuts the text at its blank-line boundaries
    (runs of two or more newlines), strips the pieces and leaves out the
    empty ones; for a text that is not only whitespace the chunks are these
    paragraphs, in their order, accumulated with a flush at the threshold:
    consecutive groups of paragraphs joined by a blank line, a group of
    several paragraphs being shorter than [chunk_size], and a group being
    closed only when the next paragraph would have brought it to
    [chunk_size] or beyond. The loop yields no chunk exactly for a text made
    of whitespace only, and then the whole text is the single chunk. A text
    with no blank-line break and of length below [chunk_size] yields exactly
    one chunk: the text stripped of its leading and trailing whitespace when
    that is not empty (so the whole input when it has no such whitespace),
    and the whole text otherwise. *)
Theorem split_text_chunking (text : str) (overlap : Z) :
  (∃ pieces,
     cut_at_blank_lines text pieces
     ∧ (¬ blank text →
        accumulated chunk_size (filter (λ p, p ≠ []) (map strip pieces))
          (_split_text text chunk_size overlap)))
  ∧ (split_text_chunks text chunk_size = [] ↔ blank text)
  ∧ (blank text → _split_text text chunk_size overlap = [text])
  ∧ (blank_line_free text → (Z.of_nat (length text) < chunk_size)%Z →
     _split_text text chunk_size overlap =
       [match strip text with [] => text | _ :: _ => strip text end]
     ∧ (stripped text → _split_text text chunk_size overlap = [text])).
Proof.
  split.
  - exists (re_split_blank_lines text). split; [apply re_split_cut|].
    apply split_text_accumulated.
  - apply (split_text_blank_or_one_paragraph chunk_size text overlap).
Qed.

End GroupingFacts.

(** A text of two paragraphs, which are accumulated into one chunk, and a
    text file of one line with no surrounding whitespace. *)
Lemma split_text_chunking_witness :
  (∃ pieces,
     cut_at_blank_lines
       (of_string "Q: hours?" ++ [newline; newline]
        ++ of_string "A: 24/7." ++ [newline]) pieces
     ∧ accumulated 800 (filter (λ p, p ≠ []) (map strip pieces))
         (_split_text (of_string "Q: hours?" ++ [newline; newline]
                       ++ of_string "A: 24/7." ++ [newline]) 800 150))
  ∧ _split_text (of_string "Q: What are your hours? A: 24/7.") 800 150
    = [of_string "Q: What are your hours? A: 24/7."].
Proof.
  split.
  - destruct (proj1 (split_text_chunking 800
                       (of_string "Q: hours?" ++ [newline; newline]
                        ++ of_string "A: 24/7." ++ [newline]) 150))
      as (pieces & Hcut & Haccumulated).
    exists pieces. split; [exact Hcut|]. apply Haccumulated.
    intros Hblank. apply Forall_inv in Hblank. by vm_compute in Hblank.
  - apply (proj2 (proj2 (proj2 (split_text_chunking 800
                                  (of_string "Q: What are your hours? A: 24/7.")
                                  150)))).
    + reflexivity.
    + reflexivity.
    + split; reflexivity.
Defined.

(** Accumulation and flush at a threshold of 12 characters: the first two
    paragraphs make 10 characters together, the third would bring the group
    to 16. *)
Example split_text_accumulates_then_flushes :
  _split_text (of_string "aaaa" ++ [newline; newline] ++ of_string "bbbb"
               ++ [newline; newline; newline] ++ of_string "cccc" ++ [newline])
              12 150
  = [of_string "aaaa" ++ [newline; newline] ++ of_string "bbbb";
     of_string "cccc"].
Proof. reflexivity. Qed.

(** A text of two paragraphs. *)
Lemma split_text_groups_paragraphs_witness :
  grouped 800
    (paragraphs_of (of_string "Q: hours?" ++ [newline; newline]
                    ++ of_string "A: 24/7." ++ [newline]))
    (_split_text (of_string "Q: hours?" ++ [newline; newline]
                  ++ of_string "A: 24/7." ++ [newline]) 800 150).
Proof.
  apply (proj1 (split_text_groups_paragraphs 800
                  (of_string "Q: hours?" ++ [newline; newline]
                   ++ of_string "A: 24/7." ++ [newline]) 150
                  (λ Hblank, eq_ind false (λ b, if b then False else True) I true
                               (Forall_inv Hblank)))).
Defined.

Lemma split_text_chunks_are_stripped_witness :
  Forall (λ chunk, chunk ≠ [] ∧ stripped chunk)
    (_split_text (of_string "Q: hours?" ++ [newline; newline]
                  ++ of_string "A: 24/7." ++ [newline]) 800 150).
Proof.
  apply (split_text_chunks_are_stripped 800).
  intros Hblank. apply Forall_inv in Hblank. by vm_compute in Hblank.
Defined.

(** ** Ingestion and statistics *)

Section IngestionFacts.

Variable read_text : str → exn + str.
Variable path_name : str → str.

Local Abbreviation ingest := (ingest_documents read_text path_name).
Local Abbreviation added := (flat_map (file_chunks read_text path_name)).

Lemma ingest_step_eq (store : list chunk) (s : ingest_stats) (p : str) :
  ingest_step read_text path_name (store, s) p
  = (store ++ file_chunks read_text path_name p,
     IngestStats
       (successful s + (if readable read_text p then 1 else 0))
       (failed s + (if readable read_text p then 0 else 1))
       (total_chunks s + Z.of_nat (length (file_chunks read_text path_name p)))).
Proof.
  unfold ingest_step, file_chunks, readable.
  destruct (read_text p) as [e|text]; simpl.
  - rewrite app_nil_r. f_equal. f_equal; lia.
  - rewrite length_map. f_equal. f_equal; lia.
Qed.

(** The loop with its accumulators, in closed form. *)
Lemma foldl_ingest_step (paths : list str) (store : list chunk) (s : ingest_stats) :
  foldl (ingest_step read_text path_name) (store, s) paths
  = (store ++ added paths,
     IngestStats
       (successful s + Z.of_nat (length (filter (λ p, readable read_text p = true) paths)))
       (failed s + Z.of_nat (length (filter (λ p, readable read_text p = false) paths)))
       (total_chunks s + Z.of_nat (length (added paths)))).
Proof.
  revert store s. induction paths as [|p paths IH]; intros store s.
  - simpl. rewrite app_nil_r. destruct s. simpl. f_equal. f_equal; lia.
  - change (foldl (ingest_step read_text path_name) (store, s) (p :: paths))
      with (foldl (ingest_step read_text path_name)
              (ingest_step read_text path_name (store, s) p) paths).
    rewrite ingest_step_eq, IH. rewrite !filter_cons.
    change (added (p :: paths))
      with (file_chunks read_text path_name p ++ added paths).
    rewrite length_app, <- app_assoc.
    destruct (readable read_text p); simpl;
      rewrite ?decide_True, ?decide_False by done; simpl;
      f_equal; f_equal; lia.
Qed.

Lemma split_text_not_nil (text : str) (chunk_size overlap : Z) :
  _split_text text chunk_size overlap ≠ [].
Proof. unfold _split_text. by destruct (split_text_chunks _ _). Qed.

Lemma file_chunks_readable (p : str) :
  readable read_text p = true → 1 ≤ length (file_chunks read_text path_name p).
Proof.
  unfold readable, file_chunks. destruct (read_text p) as [e|text]; [done|].
  intros _. rewrite length_map. pose proof (split_text_not_nil text 800 150).
  destruct (_split_text text 800 150); [done|]. simpl. lia.
Qed.

Lemma added_readable (paths : list str) :
  length (filter (λ p, readable read_text p = true) paths) ≤ length (added paths).
Proof.
  induction paths as [|p paths IH]; [done|].
  change (added (p :: paths))
    with (file_chunks read_text path_name p ++ added paths).
  rewrite filter_cons, length_app.
  case_decide as Hp; simpl; [|lia].
  apply file_chunks_readable in Hp. lia.
Qed.

(** X7: [ingest_documents] accounts for every path: each one is counted
    once, as successful when the file can be read and as failed otherwise;
    the chunks already stored are kept, in front; [total_chunks] is the
    number of chunks added; and every file read adds at least one chunk. *)
Theorem ingest_documents_accounts (store : list chunk) (paths : list str) :
  ∃ new,
    (ingest store paths).1 = store ++ new
    ∧ total_chunks (ingest store paths).2 = Z.of_nat (length new)
    ∧ (successful (ingest store paths).2 + failed (ingest store paths).2
       = Z.of_nat (length paths))%Z
    ∧ successful (ingest store paths).2
      = Z.of_nat (length (filter (λ p, readable read_text p = true) paths))
    ∧ (successful (ingest store paths).2 ≤ total_chunks (ingest store paths).2)%Z.
Proof.
  unfold ingest_documents. rewrite foldl_ingest_step. simpl.
  exists (added paths). split; [done|]. split; [done|]. split; [|split; [done|]].
  - assert (length (filter (λ p, readable read_text p = true) paths)
            + length (filter (λ p, readable read_text p = false) paths)
            = length paths) as Hsum; [|lia].
    induction paths as [|p paths IH]; [done|].
    rewrite !filter_cons. simpl.
    destruct (readable read_text p); simpl;
      rewrite ?decide_True, ?decide_False by done; simpl; lia.
  - pose proof (added_readable paths). lia.
Qed.

(** X8: every chunk that [ingest_documents] adds comes from a file of the
    list that could be read: it carries the path of the file, its name as
    source, and as content one of the chunks of the text of the file. *)
Theorem ingest_documents_provenance
    (store : list chunk) (paths : list str) (c : chunk) :
  c ∈ drop (length store) (ingest store paths).1 →
  path c ∈ paths
  ∧ source c = path_name (path c)
  ∧ ∃ text, read_text (path c) = inr text
            ∧ content c ∈ _split_text text 800 150.
Proof.
  unfold ingest_documents. rewrite foldl_ingest_step. simpl.
  rewrite drop_app_length. rewrite list_elem_of_In, in_flat_map.
  intros (p & Hp & Hc). unfold file_chunks in Hc.
  destruct (read_text p) as [e|text] eqn:Hread; [done|].
  apply in_map_iff in Hc as (chunk & <- & Hchunk). simpl.
  split; [by apply list_elem_of_In|]. split; [done|].
  exists text. split; [done|]. by apply list_elem_of_In.
Qed.

(** X9: ingesting in two calls is ingesting the two lists in one call: the
    store is the same and the statistics add up. *)
Theorem ingest_documents_app (store : list chunk) (paths paths' : list str) :
  ingest store (paths ++ paths')
  = ((ingest (ingest store paths).1 paths').1,
     add_stats (ingest store paths).2 (ingest (ingest store paths).1 paths').2).
Proof.
  unfold ingest_documents, add_stats. rewrite !foldl_ingest_step. simpl.
  rewrite flat_map_app, !filter_app, !length_app, <- app_assoc.
  f_equal. f_equal; lia.
Qed.

(** X10: after ingestion into an empty store, [get_statistics] reports as
    many chunks as [ingest_documents] counted, and at most as many documents
    as files were read: documents are told apart by the name of the file, so
    two files of the same name in two directories count as one. *)
Theorem get_statistics_after_ingest (config : Config) (paths : list str) :
  Z.of_nat (stats_total_chunks (get_statistics config (ingest [] paths).1))
  = total_chunks (ingest [] paths).2
  ∧ (Z.of_nat (stats_total_documents (get_statistics config (ingest [] paths).1))
     ≤ successful (ingest [] paths).2)%Z
  ∧ stats_total_documents (get_statistics config (ingest [] paths).1)
    ≤ stats_total_chunks (get_statistics config (ingest [] paths).1).
Proof.
  unfold ingest_documents, get_statistics. rewrite foldl_ingest_step. simpl.
  split; [done|]. split.
  - apply inj_le.
    transitivity (length (map path_name
                            (filter (λ p, readable read_text p = true) paths)));
      [|by rewrite length_map].
    apply submseteq_length, NoDup_submseteq; [apply NoDup_remove_dups|].
    intros name. rewrite elem_of_remove_dups.
    rewrite !list_elem_of_In, !in_map_iff.
    intros (c & <- & Hc). apply in_flat_map in Hc as (p & Hp & Hc).
    unfold file_chunks in Hc.
    destruct (read_text p) as [e|text] eqn:Hread; [done|].
    apply in_map_iff in Hc as (chunk & <- & _). simpl.
    exists p. split; [done|]. apply list_elem_of_In, list_elem_of_filter.
    unfold readable. rewrite Hread. by rewrite list_elem_of_In.
  - rewrite <- (length_map source (added paths)).
    apply submseteq_length, NoDup_submseteq; [apply NoDup_remove_dups|].
    intros name. by rewrite elem_of_remove_dups.
Qed.

End IngestionFacts.

(** The chunk of the second readable file of the sample. *)
Lemma ingest_documents_provenance_witness :
  path (Chunk (of_string "Q: Do you ship abroad? A: Yes.") (of_string "faq.txt")
              (of_string "old/faq.txt"))
  ∈ Sample2.paths.
Proof.
  apply (ingest_documents_provenance Sample2.read_text Sample2.path_name [] Sample2.paths).
  apply (bool_decide_unpack _). by vm_compute.
Defined.

(** The sample files: two are read, one is not; the two have the same name
    and count as one document of two chunks. *)
Example ingest_sample_files :
  (ingest_documents Sample2.read_text Sample2.path_name [] Sample2.paths).2
  = IngestStats 2 1 2
  ∧ get_statistics default_config
      (ingest_documents Sample2.read_text Sample2.path_name [] Sample2.paths).1
    = Statistics 2 1 (of_string "llama3.2").
Proof. split; reflexivity. Qed.

(** ** The grounded answer *)

Section GroundedFacts.

Variable E : environment.
Variable config : Config.
Variable chunks : list chunk.


(** X12: whatever the question and whatever the backend does, [query]
    returns, calls the backend exactly once, leaves the session tables as
    they are and gives at most three sources. *)
Theorem query_calls_backend_once (question lang : str) (w : world) :
  ∃ answer sources req,
    query E config chunks question lang w
    = (Return (answer, sources),
       World (active_connections w) (session_metadata w)
             (trace w ++ [EvQuery question lang; EvGenerate req]))
    ∧ req_model req = llm_model_name config
    ∧ length sources ≤ 3.
Proof.
  unfold query, query_body, _get_direct_answer, generate.
  destruct (_simple_search _ _ _ _) as [|c relevant] eqn:Hsearch; run.
  - destruct (ollama_generate E _) as [e|response]; simpl;
      [|destruct (response_text response); simpl];
      rewrite <- app_assoc; eexists _, _, _; (split; [done|]);
      split; simpl; (done || lia).
  - assert (Hlen : S (length (map (λ c, {| page_content := content c;
                      metadata := [(of_string "source", JStr (source c))] |})
                      relevant)) ≤ 3).
    { rewrite length_map.
      change (S (length relevant)) with (length (c :: relevant)).
      rewrite <- Hsearch. unfold _simple_search. rewrite length_map.
      apply Nat2Z.inj_le. by apply slice_to_length. }
    destruct (ollama_generate E _) as [e|response]; simpl;
      [|destruct (response_text response); simpl];
      rewrite <- app_assoc; eexists _, _, _; (split; [done|]);
      split; simpl; (done || lia).
Qed.

Lemma substring_refl (s : str) : substring s s.
Proof. exists [], []. by rewrite app_nil_r. Qed.

Lemma substring_app_l (x s t : str) : substring x s → substring x (s ++ t).
Proof.
  intros (pre & post & ->). exists pre, (post ++ t). by rewrite <- !app_assoc.
Qed.

Lemma substring_app_r (x s t : str) : substring x t → substring x (s ++ t).
Proof.
  intros (pre & post & ->). exists (s ++ pre), post. by rewrite <- !app_assoc.
Qed.

Lemma substring_join (sep x : str) (l : list str) :
  x ∈ l → substring x (join sep l).
Proof.
  induction l as [|a l IH]; intros Hin; [by apply elem_of_nil in Hin|].
  destruct l as [|b l].
  - apply list_elem_of_singleton in Hin as ->. apply substring_refl.
  - change (join sep (a :: b :: l)) with (a ++ sep ++ join sep (b :: l)).
    apply elem_of_cons in Hin as [->|Hin].
    + apply substring_app_l, substring_refl.
    + by apply substring_app_r, substring_app_r, IH.
Qed.

(** X13: the prompts carry what they are built from: the grounded prompt
    contains the content of every chunk found and the question, the
    ungrounded prompt contains the question. *)
Theorem prompts_embed_context_and_question
    (relevant : list chunk) (question : str) :
  (∀ c, c ∈ relevant →
        substring (content c)
                  (req_prompt (grounded_request config relevant question)))
  ∧ substring question (req_prompt (grounded_request config relevant question))
  ∧ substring question (req_prompt (direct_request config question)).
Proof.
  split; [|split].
  - intros c Hc. unfold grounded_request, grounded_prompt. cbn [req_prompt].
    do 5 apply substring_app_r. apply substring_app_l.
    apply substring_join. apply (list_elem_of_fmap_2 content). done.
  - unfold grounded_request, grounded_prompt. cbn [req_prompt].
    do 9 apply substring_app_r. apply substring_app_l, substring_refl.
  - unfold direct_request, direct_prompt. cbn [req_prompt].
    do 4 apply substring_app_r. apply substring_app_l, substring_refl.
Qed.

End GroundedFacts.


(** The first chunk found for a question on the sample store. *)
Lemma prompts_embed_context_and_question_witness :
  substring (of_string "Q: What are your hours? A: 24/7.")
    (req_prompt (grounded_request default_config
                   (_simple_search ascii_lower Sample.kb
                      (of_string "What are your hours") 3)
                   (of_string "What are your hours"))).
Proof.
  apply (proj1 (prompts_embed_context_and_question default_config
                  (_simple_search ascii_lower Sample.kb
                     (of_string "What are your hours") 3)
                  (of_string "What are your hours"))
           (Chunk (of_string "Q: What are your hours? A: 24/7.")
                  Sample.faq Sample.faq)).
  apply (bool_decide_unpack _). by vm_compute.
Defined.

(** ** Computations that never raise *)

Section NeverRaises.

Lemma never_raises_ret {A} (a : A) : never_raises (ret a).
Proof. intros w. by exists a. Qed.

Lemma never_raises_bind {A B} (m : M A) (k : A → M B) :
  never_raises m → (∀ a, never_raises (k a)) → never_raises (bind m k).
Proof.
  intros Hm Hk w. unfold bind. destruct (Hm w) as [a Ha].
  destruct (m w) as [[a'|e] w1]; simpl in *; [|done]. apply Hk.
Qed.

Lemma never_raises_try_except {A} (m : M A) (h : exn → M A) :
  (∀ e, never_raises (h e)) → never_raises (try_except m h).
Proof.
  intros Hh w. unfold try_except.
  destruct (m w) as [[a|e] w1]; simpl; [by exists a|apply Hh].
Qed.

Lemma never_raises_try_finally {A} (m : M A) (f : M unit) :
  never_raises m → never_raises f → never_raises (try_finally m f).
Proof.
  intros Hm Hf w. unfold try_finally. destruct (Hm w) as [a Ha].
  destruct (m w) as [r w1]. simpl in Ha. subst r.
  destruct (Hf w1) as [u Hu]. destruct (f w1) as [[u'|e] w2]; simpl in *; [|done].
  by exists a.
Qed.

Lemma never_raises_send_message (E : environment) (session_id : str) (frame : dict) :
  never_raises (send_message E session_id frame).
Proof. intros w. rewrite send_message_run. by exists tt. Qed.

Lemma never_raises_disconnect (session_id : str) :
  never_raises (disconnect session_id).
Proof. intros w. rewrite disconnect_run. by exists tt. Qed.

End NeverRaises.

(** ** What a computation keeps *)

Section Keeps.

Lemma keeps_ret (R : relation world) `{!PreOrder R} {A} (a : A) : keeps R (ret a).
Proof. intros w. simpl. reflexivity. Qed.

Lemma keeps_raise (R : relation world) `{!PreOrder R} {A} (e : exn) : keeps R (@raise A e).
Proof. intros w. simpl. reflexivity. Qed.

Lemma keeps_lift (R : relation world) `{!PreOrder R} {A} (r : exn + A) : keeps R (lift r).
Proof. destruct r; [by apply keeps_raise|by apply keeps_ret]. Qed.

Lemma keeps_bind (R : relation world) `{!PreOrder R} {A B} (m : M A) (k : A → M B) :
  keeps R m → (∀ a, keeps R (k a)) → keeps R (bind m k).
Proof.
  intros Hm Hk w. unfold bind. specialize (Hm w).
  destruct (m w) as [[a|e] w1]; simpl in *; [|done].
  etransitivity; [exact Hm|apply Hk].
Qed.

Lemma keeps_try_except (R : relation world) `{!PreOrder R} {A} (m : M A) (h : exn → M A) :
  keeps R m → (∀ e, keeps R (h e)) → keeps R (try_except m h).
Proof.
  intros Hm Hh w. unfold try_except. specialize (Hm w).
  destruct (m w) as [[a|e] w1]; simpl in *; [done|].
  etransitivity; [exact Hm|apply Hh].
Qed.

Lemma keeps_get_world (R : relation world) `{!PreOrder R} : keeps R get_world.
Proof. intros w. simpl. reflexivity. Qed.

End Keeps.

(** ** The steps of one session *)

Section SessionSteps.

Variable E : environment.
Variable config : Config.
Variable chunks : list chunk.
Variable session_id : str.

#[local] Instance session_step_preorder : PreOrder (session_step session_id).
Proof.
  split.
  - intros w. split; [done|done|done|done|lia|]. exists []. by rewrite app_nil_r.
  - intros w1 w2 w3 [Hc1 Hs1 Ho1 Ht1 Hn1 (evs1 & Htr1 & Hev1)]
                    [Hc2 Hs2 Ho2 Ht2 Hn2 (evs2 & Htr2 & Hev2)].
    split.
    + by rewrite Hc2.
    + by rewrite Hs2.
    + intros other Hne. by rewrite Ho2, Ho1.
    + by rewrite Ht2.
    + lia.
    + exists (evs1 ++ evs2). split; [by rewrite Htr2, Htr1, app_assoc|].
      apply Forall_app. split; [done|]. by rewrite <- Hc1.
Qed.

Local Abbreviation step := (session_step session_id).

(** A world that differs from [w] by its trace only. *)
Lemma step_trace_only (w : world) (evs : list event) :
  Forall (sends_to (active_connections w !! session_id)) evs →
  step w (World (active_connections w) (session_metadata w) (trace w ++ evs)).
Proof.
  intros Hevs. split; simpl; [done|done|done|done| |by exists evs].
  unfold count_of. simpl. lia.
Qed.

Lemma keeps_emit (ev : event) : is_send ev = false → keeps step (emit ev).
Proof.
  intros Hev w. apply step_trace_only. constructor; [|done]. by destruct ev.
Qed.

Lemma keeps_send_message (frame : dict) :
  keeps step (send_message E session_id frame).
Proof.
  intros w. rewrite send_message_run. apply step_trace_only.
  unfold sent. destruct (active_connections w !! session_id); by repeat constructor.
Qed.

Lemma keeps_get_session_language : keeps step (get_session_language session_id).
Proof. intros w. simpl. reflexivity. Qed.

(** A new entry for the session that keeps its time of connection and does
    not lower its counter. *)
Lemma step_update (w : world) (s s' : session) :
  session_metadata w !! session_id = Some s →
  connected_at s' = connected_at s →
  (message_count s ≤ message_count s')%Z →
  step w (World (active_connections w)
                (<[session_id := s']> (session_metadata w)) (trace w)).
Proof.
  intros Hs Hat Hcount. split; simpl.
  - done.
  - apply dom_insert_lookup_L. by rewrite Hs.
  - intros other Hne. by rewrite lookup_insert_ne.
  - rewrite lookup_insert_eq, Hs. simpl. by rewrite Hat.
  - unfold count_of. simpl. by rewrite lookup_insert_eq, Hs.
  - exists []. by rewrite app_nil_r.
Qed.

Lemma keeps_set_session_language (lang : str) :
  keeps step (set_session_language session_id lang).
Proof.
  intros w. unfold set_session_language. run.
  destruct (session_metadata w !! session_id) as [s|] eqn:Hs; simpl.
  - by apply (step_update w s).
  - reflexivity.
Qed.

Lemma keeps_increment_message_count :
  keeps step (increment_message_count session_id).
Proof.
  intros w. unfold increment_message_count. run.
  destruct (session_metadata w !! session_id) as [s|] eqn:Hs; simpl.
  - apply (step_update w s); simpl; [done..|lia].
  - reflexivity.
Qed.

Lemma keeps_query (question lang : str) :
  keeps step (query E config chunks question lang).
Proof.
  intros w.
  destruct (query_emits E config chunks (λ ev, is_send ev = false) question lang)
    with (w := w) as (evs & Htrace & Hevs & _); [done|].
  destruct (query_run_shape E config chunks question lang w) as (r & evs' & Hrun).
  rewrite Hrun in Htrace |- *. simpl in *. apply app_inv_head in Htrace as ->.
  apply step_trace_only. eapply Forall_impl; [exact Hevs|].
  intros ev Hev. by destruct ev.
Qed.

Local Ltac seq := apply keeps_bind; [apply _| |intros ?].

Lemma keeps_handle_text_message (message : dict) :
  keeps step (_handle_text_message E config chunks session_id message).
Proof.
  unfold _handle_text_message.
  seq. { unfold strip_value. destruct (default _ _);
           first [apply keeps_raise; apply _ | apply keeps_ret; apply _]. }
  destruct a as [|c s]; [apply keeps_send_message|].
  seq; [apply keeps_get_session_language|].
  seq; [apply keeps_send_message|].
  seq; [apply keeps_query|]. destruct a1 as [answer sources].
  seq; [apply keeps_send_message|].
  seq; [apply keeps_send_message|].
  seq; [|apply keeps_increment_message_count].
  unfold log_user_interaction. seq; [by apply keeps_emit|].
  destruct (write_interaction _ _ _ _ _);
    [apply keeps_raise; apply _|apply keeps_ret; apply _].
Qed.

Lemma keeps_handle_audio_message (message : dict) :
  keeps step (_handle_audio_message E config chunks session_id message).
Proof.
  unfold _handle_audio_message.
  apply keeps_try_except; [apply _| |intros e; apply keeps_send_message].
  destruct (negb _); [apply keeps_send_message|].
  seq. { unfold base64_to_audio. seq; [by apply keeps_emit|].
         apply keeps_lift; apply _. }
  seq; [apply keeps_get_session_language|].
  seq. { unfold transcribe_audio. seq; [by apply keeps_emit|].
         apply keeps_ret; apply _. }
  destruct a1 as [[|c text] detected]; [apply keeps_send_message|].
  seq. { case_decide; [apply keeps_set_session_language|apply keeps_ret; apply _]. }
  seq; [apply keeps_send_message|].
  seq; [apply keeps_handle_text_message|].
  destruct (truthy _); apply keeps_ret; apply _.
Qed.

Lemma keeps_handle_language_change (message : dict) :
  keeps step (_handle_language_change E config session_id message).
Proof.
  unfold _handle_language_change.
  destruct (default _ _); try apply keeps_send_message.
  case_decide; [|apply keeps_send_message].
  seq; [apply keeps_set_session_language|apply keeps_send_message].
Qed.

Lemma keeps_process_message (raw_message : str) :
  keeps step (_process_message E config chunks session_id raw_message).
Proof.
  unfold _process_message.
  apply keeps_try_except; [apply _| |].
  - seq. { destruct (json_loads E raw_message);
             [apply keeps_raise; apply _|apply keeps_ret; apply _]. }
    seq. { unfold message_get_type. destruct a;
             first [apply keeps_raise; apply _ | apply keeps_ret; apply _]. }
    destruct a0 as [message message_type].
    destruct (eq_str _ _); [apply keeps_handle_text_message|].
    destruct (eq_str _ _); [apply keeps_handle_audio_message|].
    destruct (eq_str _ _); [apply keeps_handle_language_change|].
    apply keeps_send_message.
  - intros e. unfold process_message_except.
    destruct e; apply keeps_send_message.
Qed.

(** X14: handling a frame of one session leaves the other sessions alone:
    the transport handles, the set of sessions and the entry of every other
    session are as before; the session itself keeps its time of connection
    and its message counter does not decrease. *)
Theorem process_message_isolates_sessions (raw_message : str) (w : world) :
  let w' := (_process_message E config chunks session_id raw_message w).2 in
  active_connections w' = active_connections w
  ∧ dom (session_metadata w') = dom (session_metadata w)
  ∧ (∀ other, other ≠ session_id →
              session_metadata w' !! other = session_metadata w !! other)
  ∧ connected_at <$> session_metadata w' !! session_id
    = connected_at <$> session_metadata w !! session_id
  ∧ (count_of w session_id ≤ count_of w' session_id)%Z.
Proof.
  destruct (keeps_process_message raw_message w) as [? ? ? ? ? _]. done.
Qed.

(** X15: every frame sent while a frame of a session is handled goes to the
    transport handle of that session; when the session has no handle,
    nothing is sent. *)
Theorem process_message_sends_to_own_handle (raw_message : str) (w : world) :
  ∃ evs,
    trace (_process_message E config chunks session_id raw_message w).2
    = trace w ++ evs
    ∧ (∀ ws frame, EvSend ws frame ∈ evs →
                   active_connections w !! session_id = Some ws)
    ∧ (active_connections w !! session_id = None → frames evs = []).
Proof.
  destruct (keeps_process_message raw_message w) as [_ _ _ _ _ (evs & Htrace & Hevs)].
  exists evs. split; [done|]. rewrite Forall_forall in Hevs. split.
  - intros ws frame Hin. apply (Hevs _ Hin).
  - intros Hnone. rewrite Hnone in Hevs. clear Htrace.
    induction evs as [|ev evs IH]; [done|].
    assert (Hev := Hevs ev (list_elem_of_here _ _)).
    destruct ev; try done; apply IH; intros ev' Hin; apply Hevs; by right.
Qed.

(** X16: the router never raises: whatever the frame, [_process_message]
    returns, so a frame never ends the loop of [handle_connection]; neither
    does [_handle_audio_message] raise. *)
Theorem process_message_never_raises
    (raw_message : str) (message : dict) (w : world) :
  (_process_message E config chunks session_id raw_message w).1 = Return tt
  ∧ (_handle_audio_message E config chunks session_id message w).1 = Return tt.
Proof.
  split.
  - destruct (never_raises_try_except
                (let! message :=
                   match json_loads E raw_message with
                   | inr v => ret v
                   | inl e => raise e
                   end in
                 let! (message, message_type) := message_get_type message in
                 if eq_str message_type (of_string "text")
                 then _handle_text_message E config chunks session_id message
                 else if eq_str message_type (of_string "audio")
                 then _handle_audio_message E config chunks session_id message
                 else if eq_str message_type (of_string "language")
                 then _handle_language_change E config session_id message
                 else _send_error E session_id (of_string "Unknown message type"))
                (process_message_except E session_id)) with (w := w) as [[] Hrun].
    + intros e. unfold process_message_except.
      destruct e; apply never_raises_send_message.
    + exact Hrun.
  - unfold _handle_audio_message.
    match goal with
    | |- (try_except ?m ?h w).1 = _ =>
        destruct (never_raises_try_except m h) with (w := w) as [[] Hrun];
          [intros e; apply never_raises_send_message|exact Hrun]
    end.
Qed.

End SessionSteps.

(** A text frame of the first session of the sample registry leaves the
    entry of the second as it is. *)
Lemma process_message_isolates_sessions_witness :
  session_metadata
    (_process_message Sample2.env default_config Sample.kb Sample.alice
       (of_string "hours") Sample.two_sessions).2 !! Sample.bob
  = session_metadata Sample.two_sessions !! Sample.bob.
Proof.
  pose proof (process_message_isolates_sessions Sample2.env default_config
                Sample.kb Sample.alice (of_string "hours") Sample.two_sessions)
    as Hstep.
  cbv zeta in Hstep. destruct Hstep as (_ & _ & Hothers & _).
  apply Hothers. apply (bool_decide_unpack _). by vm_compute.
Defined.

(** A text frame handled for a session that is not connected sends
    nothing. *)
Lemma process_message_sends_to_own_handle_witness :
  ∃ evs,
    trace (_process_message Sample2.env default_config Sample.kb
             (of_string "session-z") (of_string "hours") Sample.two_sessions).2
    = trace Sample.two_sessions ++ evs
    ∧ frames evs = [].
Proof.
  destruct (process_message_sends_to_own_handle Sample2.env default_config
              Sample.kb (of_string "session-z") (of_string "hours")
              Sample.two_sessions)
    as (evs & Htrace & _ & Hnone).
  exists evs. split; [exact Htrace|]. apply Hnone. reflexivity.
Defined.

(** ** The session registry *)

Section RegistryMore.

Variable E : environment.

Lemma connect_run (websocket : handle) (session_id : str) (w : world) :
  connect E websocket session_id w
  = (Return session_id,
     World (<[session_id := websocket]> (active_connections w))
           (<[session_id := Session (now_isoformat E) (of_string "en") 0]>
              (session_metadata w))
           (trace w)).
Proof. by destruct w. Qed.

(** X17: [connect] registers the session with its transport handle, the
    language "en" and a message count of 0, and leaves every other session as
    it is; nothing is sent. *)
Theorem connect_registers_session
    (websocket : handle) (session_id : str) (w : world) :
  ∃ w', connect E websocket session_id w = (Return session_id, w')
        ∧ active_connections w' !! session_id = Some websocket
        ∧ get_session_language session_id w' = (Return (of_string "en"), w')
        ∧ count_of w' session_id = 0%Z
        ∧ trace w' = trace w
        ∧ ∀ other, other ≠ session_id →
            active_connections w' !! other = active_connections w !! other
            ∧ session_metadata w' !! other = session_metadata w !! other.
Proof.
  eexists. split; [apply connect_run|]. simpl.
  split; [by rewrite lookup_insert_eq|].
  split; [unfold get_session_language; run; by rewrite lookup_insert_eq|].
  split; [unfold count_of; simpl; by rewrite lookup_insert_eq|].
  split; [done|].
  intros other Hne. by rewrite !lookup_insert_ne.
Qed.

(** X18: a session whose id is new leaves no trace in the registry:
    [connect] followed by [disconnect] gives back the two tables as they
    were. *)
Theorem connect_disconnect_round_trip
    (websocket : handle) (session_id : str) (w : world) :
  active_connections w !! session_id = None →
  session_metadata w !! session_id = None →
  disconnect session_id (connect E websocket session_id w).2 = (Return tt, w).
Proof.
  intros Hac Hmd. rewrite connect_run, disconnect_run. simpl.
  rewrite !delete_insert_eq, !delete_id by done. by destruct w.
Qed.

(** X19: the language of a session reads back as it was set, the other
    fields of the session and the other sessions being untouched; for a
    session that has no entry, setting the language does nothing and reading
    it gives "en". *)
Theorem session_language_round_trip (session_id lang : str) (w : world) :
  (∀ s, session_metadata w !! session_id = Some s →
        ∃ w', set_session_language session_id lang w = (Return tt, w')
              ∧ get_session_language session_id w' = (Return lang, w')
              ∧ session_metadata w' !! session_id
                = Some (Session (connected_at s) lang (message_count s))
              ∧ active_connections w' = active_connections w
              ∧ ∀ other, other ≠ session_id →
                  session_metadata w' !! other = session_metadata w !! other)
  ∧ (session_metadata w !! session_id = None →
     set_session_language session_id lang w = (Return tt, w)
     ∧ get_session_language session_id w = (Return (of_string "en"), w)).
Proof.
  split.
  - intros s Hs. unfold set_session_language, get_session_language. run.
    rewrite Hs. simpl. eexists. split; [done|]. simpl.
    rewrite lookup_insert_eq. split; [done|]. split; [done|]. split; [done|].
    intros other Hne. by rewrite lookup_insert_ne.
  - intros Hnone. unfold set_session_language, get_session_language. run.
    by rewrite Hnone.
Qed.

End RegistryMore.

(** A third session joins the sample registry; the entry of the first is as
    it was. *)
Lemma connect_registers_session_witness :
  ∃ w', connect Sample.env 3 (of_string "session-c") Sample.two_sessions
        = (Return (of_string "session-c"), w')
        ∧ session_metadata w' !! Sample.alice
          = session_metadata Sample.two_sessions !! Sample.alice.
Proof.
  destruct (connect_registers_session Sample.env 3 (of_string "session-c")
              Sample.two_sessions)
    as (w' & Hrun & _ & _ & _ & _ & Hothers).
  exists w'. split; [exact Hrun|]. apply Hothers.
  apply (bool_decide_unpack _). by vm_compute.
Defined.

(** A third session joins the sample registry and leaves. *)
Lemma connect_disconnect_round_trip_witness :
  disconnect (of_string "session-c")
    (connect Sample.env 3 (of_string "session-c") Sample.two_sessions).2
  = (Return tt, Sample.two_sessions).
Proof. apply connect_disconnect_round_trip; reflexivity. Defined.

(** The session of the sample registry that speaks French is set to
    German. *)
Lemma session_language_round_trip_witness :
  ∃ w', set_session_language Sample.bob (of_string "de") Sample.two_sessions
        = (Return tt, w')
        ∧ get_session_language Sample.bob w' = (Return (of_string "de"), w').
Proof.
  destruct (proj1 (session_language_round_trip Sample.bob (of_string "de")
                     Sample.two_sessions)
              (Session (of_string "2024-05-01T11:59:00") (of_string "fr") 3)
              eq_refl)
    as (w' & Hset & Hget & _).
  by exists w'.
Defined.

(** ** The registry under the router *)

Section ConsistencyFacts.

Variable E : environment.
Variable config : Config.
Variable chunks : list chunk.

(** X20: the two session tables keep the same set of ids: when they agree
    before [connect], [disconnect] or the handling of a frame, they agree
    after it. *)
Theorem registry_stays_consistent
    (websocket : handle) (session_id raw_message : str) (w : world) :
  consistent w →
  consistent (connect E websocket session_id w).2
  ∧ consistent (disconnect session_id w).2
  ∧ consistent (_process_message E config chunks session_id raw_message w).2.
Proof.
  unfold consistent. intros Hw. split; [|split].
  - rewrite connect_run. simpl. by rewrite !dom_insert_L, Hw.
  - rewrite disconnect_run. simpl. by rewrite !dom_delete_L, Hw.
  - destruct (keeps_process_message E config chunks session_id raw_message w)
      as [Hac Hdom _ _ _ _].
    by rewrite Hac, Hdom.
Qed.

End ConsistencyFacts.

(** The sample registry after a frame that does not decode. *)
Lemma registry_stays_consistent_witness :
  consistent (_process_message Sample.env default_config Sample.kb Sample.alice
                (of_string "not json") Sample.two_sessions).2.
Proof.
  apply (registry_stays_consistent Sample.env default_config Sample.kb 1
           Sample.alice (of_string "not json") Sample.two_sessions).
  by vm_compute.
Defined.

(** ** Frames that are rejected *)

Section RouterRuns.

Variable E : environment.
Variable config : Config.
Variable chunks : list chunk.

Lemma eq_str_false (kind : json) (s : str) :
  (∀ s', kind = JStr s' → s' ≠ s) → eq_str kind s = false.
Proof.
  intros Hne. destruct kind; try done. simpl.
  apply bool_decide_eq_false. by apply Hne.
Qed.

(** X21: the frames the router cannot dispatch are each answered by one
    error frame and change nothing else: a payload on which [json.loads]
    raises [JSONDecodeError] by "Invalid JSON"; a payload on which it raises
    any other exception (a text nested too deeply, bytes that are not
    UTF-8) by "Internal server error"; a JSON value that is not an object by
    "Internal server error"; an object whose type is none of "text",
    "audio" and "language" by "Unknown message type"; and a text frame
    whose content is not a string by "Internal server error". *)
Theorem process_message_rejects_malformed
    (session_id raw_message : str) (w : world) :
  (json_loads E raw_message = inl JSONDecodeError →
   _process_message E config chunks session_id raw_message w
   = error_reply E session_id (of_string "Invalid JSON") w)
  ∧ (∀ e, json_loads E raw_message = inl e →
          e ≠ JSONDecodeError →
          _process_message E config chunks session_id raw_message w
          = error_reply E session_id (of_string "Internal server error") w)
  ∧ (∀ v, json_loads E raw_message = inr v →
          (∀ d, v ≠ JObj d) →
          _process_message E config chunks session_id raw_message w
          = error_reply E session_id (of_string "Internal server error") w)
  ∧ (∀ d kind,
       json_loads E raw_message = inr (JObj d) →
       dict_get d (of_string "type") = Some kind →
       (∀ s, kind = JStr s →
             s ∉ [of_string "text"; of_string "audio"; of_string "language"]) →
       _process_message E config chunks session_id raw_message w
       = error_reply E session_id (of_string "Unknown message type") w)
  ∧ (∀ d v,
       json_loads E raw_message = inr (JObj d) →
       dict_get d (of_string "type") = Some (JStr (of_string "text")) →
       dict_get d (of_string "content") = Some v →
       (∀ s, v ≠ JStr s) →
       _process_message E config chunks session_id raw_message w
       = error_reply E session_id (of_string "Internal server error") w).
Proof.
  unfold error_reply. split; [|split; [|split; [|split]]].
  - intros Hloads. unfold _process_message, try_except, bind.
    rewrite Hloads. simpl. apply send_error_run.
  - intros e Hloads He. unfold _process_message, try_except, bind.
    rewrite Hloads. simpl. destruct e; try apply send_error_run. done.
  - intros v Hloads Hobj. unfold _process_message, try_except, bind.
    rewrite Hloads. simpl.
    destruct v; try apply send_error_run. by destruct (Hobj fields).
  - intros d kind Hloads Hkind Hother.
    unfold _process_message, try_except, bind. rewrite Hloads. simpl.
    rewrite Hkind. simpl.
    rewrite !eq_str_false by (intros s' Hs' ->; apply (Hother _ Hs'); set_solver).
    rewrite send_error_run. done.
  - intros d v Hloads Hkind Hcontent Hstr.
    unfold _process_message, try_except, bind. rewrite Hloads. simpl.
    rewrite Hkind. simpl.
    replace (eq_str (JStr (of_string "text")) (of_string "text")) with true
      by by vm_compute.
    unfold _handle_text_message. rewrite Hcontent. simpl.
    unfold bind, strip_value.
    destruct v; try apply send_error_run. by destruct (Hstr s).
Qed.

(** The run of [query] from any world. *)
Lemma query_run (question lang : str) (w : world) :
  ∃ answer sources req,
    query E config chunks question lang w
    = (Return (answer, sources),
       World (active_connections w) (session_metadata w)
             (trace w ++ [EvQuery question lang; EvGenerate req])).
Proof.
  unfold query, query_body, _get_direct_answer, generate.
  destruct (_simple_search _ _ _ _) as [|c relevant]; run.
  all: destruct (ollama_generate E _) as [e|response]; simpl;
    [|destruct (response_text response); simpl];
    rewrite <- app_assoc; by eexists _, _, _.
Qed.

(** The run of [_handle_text_message] on a frame with content, for a
    session that is connected and registered. *)
Lemma handle_text_run
    (session_id : str) (message : dict) (s : str) (ws : handle) (sess : session)
    (w : world) :
  dict_get message (of_string "content") = Some (JStr s) →
  strip s ≠ [] →
  active_connections w !! session_id = Some ws →
  session_metadata w !! session_id = Some sess →
  ∃ answer sources req,
    _handle_text_message E config chunks session_id message w
    = match write_interaction E session_id (strip s) answer (language sess) with
      | None =>
          (Return tt,
           World (active_connections w)
                 (<[session_id := counted sess]> (session_metadata w))
                 (trace w ++ answered E session_id ws (strip s) (language sess)
                                      answer sources req))
      | Some e =>
          (Raise e,
           World (active_connections w) (session_metadata w)
                 (trace w ++ answered E session_id ws (strip s) (language sess)
                                      answer sources req))
      end.
Proof.
  intros Hcontent Hs Hws Hsess. unfold _handle_text_message.
  rewrite Hcontent. simpl. unfold bind at 1, ret at 1.
  destruct (strip s) as [|c t] eqn:Hstrip; [done|].
  unfold bind at 1, get_session_language at 1, bind at 1, get_world at 1, ret at 1.
  rewrite Hsess.
  unfold _send_typing_indicator, bind at 1. rewrite send_message_run.
  unfold bind at 1.
  match goal with
  | |- context [query E config chunks ?q ?l ?w1] =>
      destruct (query_run q l w1) as (answer & sources & req & ->)
  end.
  unfold bind at 1. rewrite send_message_run.
  unfold bind at 1. rewrite send_message_run.
  unfold sent. simpl. rewrite Hws.
  exists answer, sources, req.
  unfold log_user_interaction, increment_message_count, answered, counted. run.
  destruct (write_interaction _ _ _ _ _); simpl.
  - rewrite <- !app_assoc. simpl. reflexivity.
  - rewrite Hsess. simpl. rewrite <- !app_assoc. simpl. reflexivity.
Qed.


(** X23: when the record of the interaction cannot be written (the write
    raises anything but [JSONDecodeError]), the client has its response
    already; the router then sends "Internal server error" after it, and the
    message is not counted. *)
Theorem process_message_unrecorded_interaction
    (session_id raw_message : str) (d : dict) (s : str) (ws : handle)
    (sess : session) (e : exn) (w : world) :
  json_loads E raw_message = inr (JObj d) →
  dict_get d (of_string "type") = Some (JStr (of_string "text")) →
  dict_get d (of_string "content") = Some (JStr s) →
  strip s ≠ [] →
  active_connections w !! session_id = Some ws →
  session_metadata w !! session_id = Some sess →
  (∀ answer, write_interaction E session_id (strip s) answer (language sess) = Some e) →
  e ≠ JSONDecodeError →
  ∃ answer sources req,
    _process_message E config chunks session_id raw_message w
    = (Return tt,
       World (active_connections w) (session_metadata w)
             (trace w
              ++ answered E session_id ws (strip s) (language sess) answer sources req
              ++ [EvSend ws (error_frame E (of_string "Internal server error"))])).
Proof.
  intros Hloads Hkind Hcontent Hs Hws Hsess Hwrite Hexn.
  destruct (handle_text_run session_id d s ws sess w)
    as (answer & sources & req & Hrun); [done..|].
  rewrite Hwrite in Hrun. exists answer, sources, req.
  unfold _process_message, try_except, bind. rewrite Hloads. simpl.
  rewrite Hkind. simpl.
  replace (eq_str (JStr (of_string "text")) (of_string "text")) with true
    by by vm_compute.
  rewrite Hrun. unfold process_message_except.
  assert (Hreply : ∀ w0, _send_error E session_id (of_string "Internal server error") w0
                         = (Return tt,
                            World (active_connections w0) (session_metadata w0)
                                  (trace w0 ++ sent w0 session_id
                                     (error_frame E (of_string "Internal server error")))))
    by (intros w0; apply send_error_run).
  destruct e; try done; rewrite Hreply; unfold sent; simpl; rewrite Hws;
    by rewrite <- app_assoc.
Qed.

End RouterRuns.

(** A payload that is not JSON and one that is nested too deeply, on the
    sample registry. *)
Lemma process_message_rejects_malformed_witness :
  _process_message Sample2.env default_config Sample.kb Sample.alice
    (of_string "not json") Sample.two_sessions
  = error_reply Sample2.env Sample.alice (of_string "Invalid JSON")
      Sample.two_sessions
  ∧ _process_message Sample2.env default_config Sample.kb Sample.alice
      (of_string "nested") Sample.two_sessions
    = error_reply Sample2.env Sample.alice (of_string "Internal server error")
        Sample.two_sessions.
Proof.
  split.
  - apply (proj1 (process_message_rejects_malformed Sample2.env default_config
                    Sample.kb Sample.alice (of_string "not json")
                    Sample.two_sessions)).
    reflexivity.
  - apply (proj1 (proj2 (process_message_rejects_malformed Sample2.env
                           default_config Sample.kb Sample.alice
                           (of_string "nested") Sample.two_sessions))
             RecursionError).
    + reflexivity.
    + discriminate.
Defined.


(** The same question when the record of interactions cannot be written. *)
Lemma process_message_unrecorded_interaction_witness :
  ∃ answer sources req,
    _process_message Sample2.env_disk_full default_config Sample.kb Sample.alice
      (of_string "hours") Sample.two_sessions
    = (Return tt,
       World (active_connections Sample.two_sessions)
             (session_metadata Sample.two_sessions)
             (trace Sample.two_sessions
              ++ answered Sample2.env_disk_full Sample.alice 1
                   (strip (of_string "What are your hours?")) (of_string "en")
                   answer sources req
              ++ [EvSend 1 (error_frame Sample2.env_disk_full
                              (of_string "Internal server error"))])).
Proof.
  apply (process_message_unrecorded_interaction Sample2.env_disk_full
           default_config Sample.kb Sample.alice (of_string "hours")
           [(of_string "type", JStr (of_string "text"));
            (of_string "content", JStr (of_string "What are your hours?"))]
           (of_string "What are your hours?") 1
           (Session (of_string "2024-05-01T11:58:00") (of_string "en") 0)
           OSError Sample.two_sessions).
  - reflexivity.
  - reflexivity.
  - reflexivity.
  - by vm_compute.
  - reflexivity.
  - reflexivity.
  - intros answer. reflexivity.
  - discriminate.
Defined.

(** ** Audio frames *)

Section AudioRuns.

Variable E : environment.
Variable config : Config.
Variable chunks : list chunk.

Lemma get_session_language_hint (session_id : str) (w : world) :
  (let lang := match session_metadata w !! session_id with
               | Some s => language s
               | None => of_string "en"
               end in
   if decide (lang ≠ of_string "en") then Some lang else None)
  = hint_of w session_id.
Proof.
  unfold hint_of. destruct (session_metadata w !! session_id); [done|].
  by vm_compute.
Qed.

(** The run of [_handle_audio_message] up to the transcription, when the
    payload decodes. *)
Lemma handle_audio_silent
    (session_id : str) (message : dict) (data : json) (audio : bytes)
    (detected : str) (w : world) :
  default (JStr []) (dict_get message (of_string "audio_data")) = data →
  truthy data = true →
  b64decode E data = inr audio →
  whisper_transcribe E audio (hint_of w session_id) = ([], detected) →
  _handle_audio_message E config chunks session_id message w
  = (Return tt,
     World (active_connections w) (session_metadata w)
           (trace w ++ [EvDecode data; EvTranscribe audio (hint_of w session_id)]
            ++ sent w session_id
                 (error_frame E (of_string "Could not transcribe audio")))).
Proof.
  intros Hdata Htruthy Hdecode Hsilent.
  unfold _handle_audio_message, try_except. rewrite Hdata, Htruthy. simpl.
  unfold base64_to_audio, transcribe_audio, get_session_language. run.
  rewrite Hdecode. simpl.
  rewrite get_session_language_hint, Hsilent. simpl.
  rewrite send_error_run. unfold sent. simpl. by rewrite <- !app_assoc.
Qed.

(** X24: an audio frame without audio data (the field is missing, empty,
    null, false or zero) is answered by "No audio data" at once: nothing is
    decoded or transcribed and the tables are unchanged. *)
Theorem handle_audio_without_data
    (session_id : str) (message : dict) (w : world) :
  truthy (default (JStr []) (dict_get message (of_string "audio_data"))) = false →
  _handle_audio_message E config chunks session_id message w
  = error_reply E session_id (of_string "No audio data") w.
Proof.
  intros Hdata. unfold _handle_audio_message, try_except. rewrite Hdata. simpl.
  by rewrite send_error_run.
Qed.

(** X25: the two ways an audio frame with data fails. When the payload
    cannot be decoded the reply is "Audio processing failed" and no
    transcription is attempted. When the transcription is empty the reply is
    "Could not transcribe audio"; the transcription was asked with the
    language of the session as hint, and with no hint for "en". In both
    cases the tables, hence the language of the session, are unchanged. *)
Theorem handle_audio_failures
    (session_id : str) (message : dict) (data : json) (w : world) :
  default (JStr []) (dict_get message (of_string "audio_data")) = data →
  truthy data = true →
  (∀ e, b64decode E data = inl e →
        _handle_audio_message E config chunks session_id message w
        = (Return tt,
           World (active_connections w) (session_metadata w)
                 (trace w ++ [EvDecode data]
                  ++ sent w session_id
                       (error_frame E (of_string "Audio processing failed")))))
  ∧ (∀ audio detected,
       b64decode E data = inr audio →
       whisper_transcribe E audio (hint_of w session_id) = ([], detected) →
       _handle_audio_message E config chunks session_id message w
       = (Return tt,
          World (active_connections w) (session_metadata w)
                (trace w ++ [EvDecode data; EvTranscribe audio (hint_of w session_id)]
                 ++ sent w session_id
                      (error_frame E (of_string "Could not transcribe audio"))))).
Proof.
  intros Hdata Htruthy. split.
  - intros e Hdecode.
    unfold _handle_audio_message, try_except. rewrite Hdata, Htruthy. simpl.
    unfold base64_to_audio. run. rewrite Hdecode. simpl.
    rewrite send_error_run. unfold sent. simpl. by rewrite <- !app_assoc.
  - intros audio detected Hdecode Hsilent.
    by apply (handle_audio_silent session_id message data audio detected).
Qed.

(** The run of [_handle_audio_message] on a frame that is transcribed, for
    a session that is connected and registered. *)
Lemma handle_audio_run
    (session_id : str) (message : dict) (data : json) (audio : bytes)
    (text detected : str) (ws : handle) (sess : session) (w : world) :
  default (JStr []) (dict_get message (of_string "audio_data")) = data →
  truthy data = true →
  b64decode E data = inr audio →
  whisper_transcribe E audio (hint_of w session_id) = (text, detected) →
  strip text ≠ [] →
  active_connections w !! session_id = Some ws →
  session_metadata w !! session_id = Some sess →
  ∃ answer sources req,
    _handle_audio_message E config chunks session_id message w
    = match write_interaction E session_id (strip text) answer detected with
      | None =>
          (Return tt,
           World (active_connections w)
                 (<[session_id := Session (connected_at sess) detected
                                          (message_count sess + 1)]>
                    (session_metadata w))
                 (trace w
                  ++ [EvDecode data; EvTranscribe audio (hint_of w session_id);
                      EvSend ws (transcription_frame text detected)]
                  ++ answered E session_id ws (strip text) detected
                       answer sources req))
      | Some _ =>
          (Return tt,
           World (active_connections w)
                 (<[session_id := Session (connected_at sess) detected
                                          (message_count sess)]>
                    (session_metadata w))
                 (trace w
                  ++ [EvDecode data; EvTranscribe audio (hint_of w session_id);
                      EvSend ws (transcription_frame text detected)]
                  ++ answered E session_id ws (strip text) detected
                       answer sources req
                  ++ [EvSend ws (error_frame E
                                   (of_string "Audio processing failed"))]))
      end.
Proof.
  intros Hdata Htruthy Hdecode Htext Hstrip Hws Hsess.
  destruct text as [|c t] eqn:Hct; [done|]. rewrite <- Hct in *.
  set (sess' := Session (connected_at sess) detected (message_count sess)).
  set (md' := if decide (detected ≠ language sess)
              then <[session_id := sess']> (session_metadata w)
              else session_metadata w).
  assert (Hsess' : md' !! session_id = Some sess').
  { unfold md'. case_decide as Hdiff; [by rewrite lookup_insert_eq|].
    rewrite Hsess. f_equal. unfold sess'. destruct sess as [at0 lang0 n0].
    simpl in *. f_equal. by destruct (decide (detected = lang0)). }
  assert (Hfinal : <[session_id := counted sess']> md'
                   = <[session_id := Session (connected_at sess) detected
                                             (message_count sess + 1)]>
                       (session_metadata w)).
  { unfold md', counted, sess'. simpl.
    case_decide; [by rewrite insert_insert_eq|done]. }
  destruct (handle_text_run E config chunks session_id
              [(of_string "content", JStr text)] text ws sess'
              (World (active_connections w) md'
                     (trace w ++ [EvDecode data;
                                  EvTranscribe audio (hint_of w session_id);
                                  EvSend ws (transcription_frame text detected)])))
    as (answer & sources & req & Hrun);
    [apply dict_get_single|done|done|done|].
  simpl in Hrun.
  assert (Hunchanged : md' = <[session_id := sess']> (session_metadata w)).
  { unfold md'. case_decide as Hdiff; [done|].
    rewrite insert_id; [done|]. rewrite Hsess. f_equal.
    unfold sess'. destruct sess as [at0 lang0 n0]. simpl in *. f_equal.
    by destruct (decide (detected = lang0)). }
  exists answer, sources, req.
  unfold _handle_audio_message, try_except. rewrite Hdata, Htruthy. simpl.
  unfold base64_to_audio, transcribe_audio. unfold bind at 1 2, emit at 1, lift.
  rewrite Hdecode. unfold ret at 1.
  unfold bind at 1, get_session_language at 1, bind at 1, get_world at 1, ret at 1.
  cbn [session_metadata]. rewrite Hsess.
  unfold bind at 1 2, emit at 1, ret at 1. cbn [session_metadata active_connections trace].
  pose proof (get_session_language_hint session_id w) as Hhint.
  rewrite Hsess in Hhint. simpl in Hhint. rewrite Hhint, Htext, Hct.
  rewrite <- Hct.
  assert (Hset : ∀ tr,
    (if decide (detected ≠ language sess)
     then set_session_language session_id detected
     else ret tt) (World (active_connections w) (session_metadata w) tr)
    = (Return tt, World (active_connections w) md' tr)).
  { intros tr. unfold md', sess', set_session_language.
    destruct (decide (detected ≠ language sess)); [|reflexivity].
    unfold bind, get_world, set_session_metadata. cbn [session_metadata].
    by rewrite Hsess. }
  unfold bind at 1. rewrite Hset.
  unfold bind at 1. rewrite send_message_run. unfold sent.
  cbn [session_metadata active_connections trace]. rewrite Hws.
  unfold bind at 1.
  rewrite <- !app_assoc. simpl app.
  rewrite <- !app_assoc in Hrun. simpl app in Hrun. rewrite Hrun.
  destruct (write_interaction E session_id (strip text) answer detected) as [e|].
  - rewrite send_error_run. unfold sent.
    cbn [session_metadata active_connections trace]. rewrite Hws, Hunchanged.
    unfold answered. rewrite <- !app_assoc. reflexivity.
  - rewrite Hfinal. unfold _send_audio_response.
    destruct (truthy (default (JBool false) _)); reflexivity.
Qed.


End AudioRuns.

(** An audio frame with no field at all. *)
Lemma handle_audio_without_data_witness :
  _handle_audio_message Sample.env default_config Sample.kb Sample.alice []
    Sample.two_sessions
  = error_reply Sample.env Sample.alice (of_string "No audio data")
      Sample.two_sessions.
Proof. apply handle_audio_without_data. reflexivity. Defined.

(** An audio frame when the audio libraries are not installed. *)
Lemma handle_audio_failures_witness :
  _handle_audio_message Sample2.env_no_audio default_config Sample.kb Sample.bob
    [(of_string "audio_data", JStr (of_string "UklGRg=="))] Sample.two_sessions
  = (Return tt,
     World (active_connections Sample.two_sessions)
           (session_metadata Sample.two_sessions)
           (trace Sample.two_sessions
            ++ [EvDecode (JStr (of_string "UklGRg=="));
                EvTranscribe [] (hint_of Sample.two_sessions Sample.bob)]
            ++ sent Sample.two_sessions Sample.bob
                 (error_frame Sample2.env_no_audio
                    (of_string "Could not transcribe audio")))).
Proof.
  apply (proj2 (handle_audio_failures Sample2.env_no_audio default_config
                  Sample.kb Sample.bob
                  [(of_string "audio_data", JStr (of_string "UklGRg=="))]
                  (JStr (of_string "UklGRg==")) Sample.two_sessions
                  eq_refl eq_refl)
           [] (of_string "unknown")).
  - reflexivity.
  - reflexivity.
Defined.


(** The same question when the record of the interaction cannot be written:
    the session speaks French afterwards, and its counter is still 0. *)
Example handle_audio_unrecorded_interaction :
  let run :=
    _handle_audio_message Sample2.env_audio_disk_full default_config Sample.kb
      Sample.alice [(of_string "audio_data", JStr (of_string "UklGRg=="))]
      Sample.two_sessions in
  run.1 = Return tt
  ∧ session_metadata run.2 !! Sample.alice
    = Some (Session (of_string "2024-05-01T11:58:00") (of_string "fr") 0)
  ∧ map (λ f, dict_get f.2 (of_string "type")) (frames (trace run.2))
    = map (λ kind, Some (JStr (of_string kind)))
          ["transcription"; "typing"; "typing"; "text"; "error"]%string.
Proof. by vm_compute. Qed.

(** ** Language frames *)

Section LanguageRuns.

Variable E : environment.
Variable config : Config.

(** X27: the edges of a language frame. A frame without a language code is
    handled as a frame that asks for "en"; a code that is not a string
    (a number, a list, null) is answered by "Unsupported language" and
    changes nothing. *)
Theorem handle_language_change_edges
    (session_id : str) (message : dict) (w : world) :
  (dict_get message (of_string "language") = None →
   _handle_language_change E config session_id message w
   = _handle_language_change E config session_id
       [(of_string "language", JStr (of_string "en"))] w)
  ∧ (∀ v, dict_get message (of_string "language") = Some v →
          (∀ s, v ≠ JStr s) →
          _handle_language_change E config session_id message w
          = error_reply E session_id (of_string "Unsupported language") w).
Proof.
  split.
  - intros Hnone. unfold _handle_language_change.
    by rewrite Hnone, dict_get_single.
  - intros v Hv Hstr. unfold _handle_language_change, error_reply.
    rewrite Hv. simpl. destruct v; try apply send_error_run.
    by destruct (Hstr s).
Qed.

End LanguageRuns.

(** A language frame with no code, from the session that speaks French. *)
Lemma handle_language_change_edges_witness :
  _handle_language_change Sample.env default_config Sample.bob [] Sample.two_sessions
  = _handle_language_change Sample.env default_config Sample.bob
      [(of_string "language", JStr (of_string "en"))] Sample.two_sessions.
Proof.
  apply (proj1 (handle_language_change_edges Sample.env default_config Sample.bob
                  [] Sample.two_sessions)).
  reflexivity.
Defined.

(** ** The life of a connection *)

Section ConnectionFacts.

Variable E : environment.
Variable config : Config.
Variable chunks : list chunk.

Lemma keeps_receive_loop
    (session_id : str) (incoming : list str) (closing : option exn) :
  keeps (session_step session_id)
        (receive_loop E config chunks session_id incoming closing).
Proof.
  pose proof (session_step_preorder session_id) as Hpre.
  induction incoming as [|raw incoming IH]; simpl.
  - destruct closing; [by apply keeps_raise|by apply keeps_ret].
  - apply keeps_bind; [done|apply keeps_process_message|by intros _].
Qed.


End ConnectionFacts.


(** The frames of that connection, by type. *)
Example connection_frames :
  map (λ f, dict_get f.2 (of_string "type"))
      (frames (trace (handle_connection Sample2.env default_config Sample.kb 3
                        (of_string "/") (of_string "session-c")
                        [of_string "hours"; of_string "not json"]
                        (Some ConnectionClosed) Sample.two_sessions).2))
  = map (λ kind, Some (JStr (of_string kind)))
        ["system"; "typing"; "typing"; "text"; "error"]%string.
Proof. by vm_compute. Qed.

(** ** The audio handler *)

Section AudioHandlerFacts.

(** X29: without its libraries or its model the audio handler answers
    every transcription by the empty text and the language "unknown", and
    [initialize] still reports success: when one of the two libraries is
    missing, or when loading the model fails. With a model, the text it
    returns carries no leading or trailing whitespace, and a model that
    fails gives the empty text rather than an exception. *)
Theorem audio_handler_transcription
    (whisper_available gtts_available : bool)
    (load_model : exn + AudioHandler.whisper) (h : AudioHandler.t)
    (audio : bytes) (lang : option str) :
  ((whisper_available && gtts_available = false ∨ (∃ e, load_model = inl e)) →
   AudioHandler.initialize load_model
     (AudioHandler.init whisper_available gtts_available) = (true, h) →
   AudioHandler.transcribe_audio h audio lang = ([], of_string "unknown"))
  ∧ (AudioHandler.initialize load_model
       (AudioHandler.init whisper_available gtts_available)).1 = true
  ∧ stripped (AudioHandler.transcribe_audio h audio lang).1
  ∧ (∀ model e,
       AudioHandler.whisper_model h = Some model →
       model audio lang = inl e →
       AudioHandler.transcribe_audio h audio lang = ([], of_string "unknown")).
Proof.
  unfold AudioHandler.initialize, AudioHandler.init, AudioHandler.transcribe_audio.
  simpl. split; [|split; [|split]].
  - intros Hmissing Hinit.
    destruct (whisper_available && gtts_available) eqn:Havailable; simpl in Hinit.
    + destruct Hmissing as [?|[e ->]]; [done|].
      injection Hinit as <-. done.
    + injection Hinit as <-. done.
  - destruct (negb _); [done|]. by destruct load_model.
  - destruct (AudioHandler.audio_enabled h); [|done].
    destruct (AudioHandler.whisper_model h) as [model|]; [|done].
    destruct (model audio lang) as [e|[text detected]]; [done|].
    simpl. apply strip_stripped.
  - intros model e -> ->. by destruct (AudioHandler.audio_enabled h).
Qed.

End AudioHandlerFacts.

(** The speech library is missing. *)
Lemma audio_handler_transcription_witness :
  AudioHandler.transcribe_audio (AudioHandler.init true false) []
    (Some (of_string "fr"))
  = ([], of_string "unknown").
Proof.
  apply (proj1 (audio_handler_transcription true false (inr Sample2.model)
                  (AudioHandler.init true false) [] (Some (of_string "fr")))).
  - left. reflexivity.
  - reflexivity.
Defined.
